(** * Process Hacker main window: event bridging, reference counting and
      list-view state highlighting

    The development has two parts, following the two parts of the source:

    - [MainWnd]: the provider callbacks of mainwnd.c ([ProcessAddedHandler],
      [ServiceAddedHandler], ...), the window messages they post, and the
      [PhMainWndOn...] handlers the window procedure dispatches them to;
    - [Highlighting]: the [HighlightingContext] / [HighlightedListViewItem]
      classes (reusable ListViewItem highlighting).

    Pointers are natural numbers, machine integers are [Z], the window
    message queue and the highlight queues are lists used first-in
    first-out. *)

From stdpp Require Import gmap list strings.
From Stdlib Require Import ZArith Lia.

Local Open Scope Z_scope.

(** [ListViewItemState] (line 2104).  The specification calls the three
    states Normal, RecentlyAdded and PendingRemoval. *)
Inductive ListViewItemState := Normal | New | Removed.

Global Instance ListViewItemState_eq_dec : EqDecision ListViewItemState.
Proof. solve_decision. Defined.

Module MainWnd.

(** ** Object manager *)

(** The calls made into the object manager, in program order. *)
Inductive RefCall :=
| Acquire (o : nat)
| Release (o : nat).

Global Instance RefCall_eq_dec : EqDecision RefCall.
Proof. solve_decision. Defined.

Record ObjectManager := {
  RefCount : gmap nat nat;   (* reference count of every object *)
  Destroyed : list nat;      (* objects whose storage was released *)
  Calls : list RefCall
}.

Definition count_of (om : ObjectManager) (o : nat) : nat :=
  default 0%nat (RefCount om !! o).

(** Modelled from the spec: PhReferenceObject is declared in the object
    manager, which is not part of mainwnd.c.  Section 4.1: acquire
    increments the count. *)
Definition PhReferenceObject (o : nat) (om : ObjectManager) : ObjectManager :=
  {| RefCount := <[o := S (count_of om o)]> (RefCount om);
     Destroyed := Destroyed om;
     Calls := Calls om ++ [Acquire o] |}.

(** Modelled from the spec: PhDereferenceObject is declared in the object
    manager, which is not part of mainwnd.c.  Section 4.1: release
    decrements and, on reaching zero, runs the destructor once; a release
    without a matching acquire is absorbed by a saturating check. *)
Definition PhDereferenceObject (o : nat) (om : ObjectManager) : ObjectManager :=
  match count_of om o with
  | O =>
      {| RefCount := RefCount om;
         Destroyed := Destroyed om;
         Calls := Calls om ++ [Release o] |}
  | S n =>
      {| RefCount := <[o := n]> (RefCount om);
         Destroyed := match n with
                      | O => Destroyed om ++ [o]
                      | S _ => Destroyed om
                      end;
         Calls := Calls om ++ [Release o] |}
  end.

Definition is_acquire (o : nat) (c : RefCall) : bool :=
  match c with Acquire o' => bool_decide (o' = o) | Release _ => false end.

Definition is_release (o : nat) (c : RefCall) : bool :=
  match c with Release o' => bool_decide (o' = o) | Acquire _ => false end.

Definition acquires (o : nat) (om : ObjectManager) : nat :=
  length (List.filter (is_acquire o) (Calls om)).

Definition releases (o : nat) (om : ObjectManager) : nat :=
  length (List.filter (is_release o) (Calls om)).

(** ** Provider items *)

(** The fields of PH_PROCESS_ITEM and PH_SERVICE_ITEM that mainwnd.c reads
    in the handlers below. *)
Record PH_PROCESS_ITEM := {
  ProcessId : Z;
  ProcessName : string
}.

Record PH_SERVICE_ITEM := {
  Name : string;
  DisplayName : string;
  ProcessIdString : string
}.

(** Provider-owned memory: the items behind the pointers.  A pointer
    without an item reads as an item of empty fields. *)
Record Memory := {
  ProcessItems : gmap nat PH_PROCESS_ITEM;
  ServiceItems : gmap nat PH_SERVICE_ITEM
}.

Definition process_at (m : Memory) (p : nat) : PH_PROCESS_ITEM :=
  default {| ProcessId := 0; ProcessName := "" |} (ProcessItems m !! p).

Definition service_at (m : Memory) (s : nat) : PH_SERVICE_ITEM :=
  default {| Name := ""; DisplayName := ""; ProcessIdString := "" |}
          (ServiceItems m !! s).

(** PH_SERVICE_MODIFIED_DATA: only the [Service] field is read here. *)
Record PH_SERVICE_MODIFIED_DATA := {
  Service : nat
}.

(** ** Window messages *)

(** The WM_PH_ messages of the provider events, with their wParam and
    lParam.  WM_PH_SERVICE_MODIFIED carries the copy made by
    [ServiceModifiedHandler]. *)
Inductive Message :=
| WM_PH_PROCESS_ADDED (lParam : nat)
| WM_PH_PROCESS_MODIFIED (lParam : nat)
| WM_PH_PROCESS_REMOVED (lParam : nat)
| WM_PH_SERVICE_ADDED (wParam : Z) (lParam : nat)
| WM_PH_SERVICE_MODIFIED (lParam : PH_SERVICE_MODIFIED_DATA)
| WM_PH_SERVICE_REMOVED (lParam : nat)
| WM_PH_SERVICES_UPDATED.

(** ** The process tree *)

Record PH_PROCESS_NODE := {
  ProcessItem : nat;      (* the pointer stored in the node *)
  NodeProcessId : Z;
  NodeText : string
}.

(** Modelled from the spec: PhCreateProcessNode belongs to the process
    tree, which is not part of mainwnd.c.  Section 4.3: insert a new
    Displayed Item for the entity. *)
Definition PhCreateProcessNode (m : Memory) (p : nat)
    (tree : list PH_PROCESS_NODE) : list PH_PROCESS_NODE :=
  tree ++ [{| ProcessItem := p;
              NodeProcessId := ProcessId (process_at m p);
              NodeText := ProcessName (process_at m p) |}].

(** Modelled from the spec: PhFindProcessNode belongs to the process tree,
    which is not part of mainwnd.c.  Section 4.3: locate the Displayed Item
    by identity key; [None] is the NULL of "not found". *)
Fixpoint PhFindProcessNode (pid : Z) (tree : list PH_PROCESS_NODE)
    : option nat :=
  match tree with
  | [] => None
  | n :: rest =>
      if bool_decide (NodeProcessId n = pid) then Some O
      else S <$> PhFindProcessNode pid rest
  end.

(** Modelled from the spec: PhUpdateProcessNode belongs to the process
    tree, which is not part of mainwnd.c.  Section 4.3: update visible
    fields from the current snapshot; no-op if the item is not found. *)
Definition PhUpdateProcessNode (m : Memory) (node : option nat)
    (tree : list PH_PROCESS_NODE) : list PH_PROCESS_NODE :=
  match node with
  | None => tree
  | Some i =>
      match tree !! i with
      | None => tree
      | Some n =>
          <[i := {| ProcessItem := ProcessItem n;
                    NodeProcessId := NodeProcessId n;
                    NodeText := ProcessName (process_at m (ProcessItem n)) |}]>
            tree
      end
  end.

(** Modelled from the spec: PhRemoveProcessNode belongs to the process
    tree, which is not part of mainwnd.c.  Section 4.3 and 7: a Removed for
    an unknown key is a no-op. *)
Definition PhRemoveProcessNode (node : option nat)
    (tree : list PH_PROCESS_NODE) : list PH_PROCESS_NODE :=
  match node with
  | None => tree
  | Some i => delete i tree
  end.

(** ** The service list view *)

Record LVITEM := {
  Param : nat;
  Text : string;
  SubItem1 : string;
  SubItem2 : string;
  ItemState : ListViewItemState
}.

Record ListView := {
  StateHighlighting : bool;
  Rows : list LVITEM
}.

(** Modelled from the spec: ExtendedListView_SetStateHighlighting belongs
    to the extended list view, which is not part of mainwnd.c.  Section 3:
    a boolean toggle enabling or disabling the highlight mechanism. *)
Definition ExtendedListView_SetStateHighlighting (b : bool) (lv : ListView)
    : ListView :=
  {| StateHighlighting := b; Rows := Rows lv |}.

(** Modelled from the spec: PhAddListViewItem belongs to the GUI support
    code, which is not part of mainwnd.c.  It inserts a row at [Index]
    (at the end when [Index] is past the last row) and returns the row's
    index; by sections 4.3 and 4.4 the row starts RecentlyAdded when
    highlighting is enabled and Normal otherwise. *)
Definition PhAddListViewItem (Index : Z) (text : string) (param : nat)
    (lv : ListView) : Z * ListView :=
  let pos := if bool_decide (Z.of_nat (length (Rows lv)) <= Index)
             then length (Rows lv)
             else Z.to_nat Index in
  let row := {| Param := param; Text := text;
                SubItem1 := ""; SubItem2 := "";
                ItemState := if StateHighlighting lv then New else Normal |} in
  (Z.of_nat pos,
   {| StateHighlighting := StateHighlighting lv;
      Rows := take pos (Rows lv) ++ row :: drop pos (Rows lv) |}).

Definition set_subitem (sub : Z) (text : string) (r : LVITEM) : LVITEM :=
  {| Param := Param r; Text := Text r;
     SubItem1 := if bool_decide (sub = 1) then text else SubItem1 r;
     SubItem2 := if bool_decide (sub = 2) then text else SubItem2 r;
     ItemState := ItemState r |}.

(** Modelled from the spec: PhSetListViewSubItem belongs to the GUI support
    code, which is not part of mainwnd.c.  It sets one column of the row at
    [Index]; an index that names no row (such as -1) changes nothing
    (section 4.3: no-op if the item is not found). *)
Definition PhSetListViewSubItem (Index : Z) (SubItemIndex : Z) (text : string)
    (lv : ListView) : ListView :=
  if bool_decide (0 <= Index) then
    match Rows lv !! Z.to_nat Index with
    | None => lv
    | Some r =>
        {| StateHighlighting := StateHighlighting lv;
           Rows := <[Z.to_nat Index := set_subitem SubItemIndex text r]> (Rows lv) |}
    end
  else lv.

Fixpoint find_param (param : nat) (rows : list LVITEM) : option nat :=
  match rows with
  | [] => None
  | r :: rest =>
      if bool_decide (Param r = param) then Some O
      else S <$> find_param param rest
  end.

(** Modelled from the spec: PhFindListViewItemByParam belongs to the GUI
    support code, which is not part of mainwnd.c.  Called with start index
    -1 it returns the index of the first row holding [param], or -1. *)
Definition PhFindListViewItemByParam (param : nat) (lv : ListView) : Z :=
  match find_param param (Rows lv) with
  | Some i => Z.of_nat i
  | None => -1
  end.

Definition set_item_state (s : ListViewItemState) (r : LVITEM) : LVITEM :=
  {| Param := Param r; Text := Text r;
     SubItem1 := SubItem1 r; SubItem2 := SubItem2 r;
     ItemState := s |}.

(** Modelled from the spec: PhRemoveListViewItem belongs to the GUI support
    code, which is not part of mainwnd.c.  Section 4.3: the row goes to
    PendingRemoval and is deleted by the highlight machinery later, or is
    deleted at once when highlighting is disabled; an index that names no
    row changes nothing. *)
Definition PhRemoveListViewItem (Index : Z) (lv : ListView) : ListView :=
  if bool_decide (0 <= Index) then
    match Rows lv !! Z.to_nat Index with
    | None => lv
    | Some r =>
        {| StateHighlighting := StateHighlighting lv;
           Rows := if StateHighlighting lv
                   then <[Z.to_nat Index := set_item_state Removed r]> (Rows lv)
                   else delete (Z.to_nat Index) (Rows lv) |}
    end
  else lv.

Definition tick_row (r : LVITEM) : option LVITEM :=
  match ItemState r with
  | Normal => Some r
  | New => Some (set_item_state Normal r)
  | Removed => None
  end.

(** Modelled from the spec: ExtendedListView_Tick belongs to the extended
    list view, which is not part of mainwnd.c.  Section 4.4, without the
    timing: RecentlyAdded rows settle to Normal and PendingRemoval rows are
    deleted. *)
Definition ExtendedListView_Tick (lv : ListView) : ListView :=
  {| StateHighlighting := StateHighlighting lv;
     Rows := omap tick_row (Rows lv) |}.

(** ** Program state *)

Record State := {
  Objects : ObjectManager;
  Mem : Memory;
  ServiceProviderRunId : Z;           (* PhGetProviderRunId(&ServiceProviderRegistration) *)
  MessageQueue : list Message;        (* messages posted to PhMainWndHandle *)
  ProcessNodeList : list PH_PROCESS_NODE;
  ServiceListView : ListView
}.

Definition with_objects (f : ObjectManager -> ObjectManager) (st : State) : State :=
  {| Objects := f (Objects st); Mem := Mem st;
     ServiceProviderRunId := ServiceProviderRunId st;
     MessageQueue := MessageQueue st;
     ProcessNodeList := ProcessNodeList st;
     ServiceListView := ServiceListView st |}.

Definition with_queue (q : list Message) (st : State) : State :=
  {| Objects := Objects st; Mem := Mem st;
     ServiceProviderRunId := ServiceProviderRunId st;
     MessageQueue := q;
     ProcessNodeList := ProcessNodeList st;
     ServiceListView := ServiceListView st |}.

Definition with_tree (f : list PH_PROCESS_NODE -> list PH_PROCESS_NODE)
    (st : State) : State :=
  {| Objects := Objects st; Mem := Mem st;
     ServiceProviderRunId := ServiceProviderRunId st;
     MessageQueue := MessageQueue st;
     ProcessNodeList := f (ProcessNodeList st);
     ServiceListView := ServiceListView st |}.

Definition with_listview (f : ListView -> ListView) (st : State) : State :=
  {| Objects := Objects st; Mem := Mem st;
     ServiceProviderRunId := ServiceProviderRunId st;
     MessageQueue := MessageQueue st;
     ProcessNodeList := ProcessNodeList st;
     ServiceListView := f (ServiceListView st) |}.

(** PostMessage(PhMainWndHandle, ...): append to the window's queue. *)
Definition PostMessage (m : Message) (st : State) : State :=
  with_queue (MessageQueue st ++ [m]) st.

(** ** Provider callbacks (lines 1354-1434) *)

Definition ProcessAddedHandler (processItem : nat) (st : State) : State :=
  let st := with_objects (PhReferenceObject processItem) st in
  PostMessage (WM_PH_PROCESS_ADDED processItem) st.

Definition ProcessModifiedHandler (processItem : nat) (st : State) : State :=
  PostMessage (WM_PH_PROCESS_MODIFIED processItem) st.

Definition ProcessRemovedHandler (processItem : nat) (st : State) : State :=
  PostMessage (WM_PH_PROCESS_REMOVED processItem) st.

Definition ServiceAddedHandler (serviceItem : nat) (st : State) : State :=
  let st := with_objects (PhReferenceObject serviceItem) st in
  PostMessage (WM_PH_SERVICE_ADDED (ServiceProviderRunId st) serviceItem) st.

Definition ServiceModifiedHandler (serviceModifiedData : PH_SERVICE_MODIFIED_DATA)
    (st : State) : State :=
  let copy := serviceModifiedData in
  PostMessage (WM_PH_SERVICE_MODIFIED copy) st.

Definition ServiceRemovedHandler (serviceItem : nat) (st : State) : State :=
  PostMessage (WM_PH_SERVICE_REMOVED serviceItem) st.

Definition ServicesUpdatedHandler (st : State) : State :=
  PostMessage WM_PH_SERVICES_UPDATED st.

(** ** Message handlers (lines 2003-2074) *)

Definition MAXINT : Z := 2147483647.

Definition PhMainWndOnProcessAdded (ProcessItem : nat) (st : State) : State :=
  with_tree (PhCreateProcessNode (Mem st) ProcessItem) st.

Definition PhMainWndOnProcessModified (ProcessItem : nat) (st : State) : State :=
  with_tree
    (fun tree =>
       PhUpdateProcessNode (Mem st)
         (PhFindProcessNode (ProcessId (process_at (Mem st) ProcessItem)) tree)
         tree)
    st.

Definition PhMainWndOnProcessRemoved (ProcessItem : nat) (st : State) : State :=
  let st :=
    with_tree
      (fun tree =>
         PhRemoveProcessNode
           (PhFindProcessNode (ProcessId (process_at (Mem st) ProcessItem)) tree)
           tree)
      st in
  with_objects (PhDereferenceObject ProcessItem) st.

Definition PhMainWndOnServiceAdded (RunId : Z) (ServiceItem : nat) (st : State)
    : State :=
  let item := service_at (Mem st) ServiceItem in
  let st := with_objects (PhReferenceObject ServiceItem) st in
  let st :=
    if bool_decide (RunId = 1)
    then with_listview (ExtendedListView_SetStateHighlighting false) st
    else st in
  let '(lvItemIndex, lv) :=
    PhAddListViewItem MAXINT (Name item) ServiceItem (ServiceListView st) in
  let st := with_listview (fun _ => lv) st in
  let st :=
    if bool_decide (RunId = 1)
    then with_listview (ExtendedListView_SetStateHighlighting true) st
    else st in
  let st := with_listview (PhSetListViewSubItem lvItemIndex 1 (DisplayName item)) st in
  with_listview (PhSetListViewSubItem lvItemIndex 2 (ProcessIdString item)) st.

Definition PhMainWndOnServiceModified
    (ServiceModifiedData : PH_SERVICE_MODIFIED_DATA) (st : State) : State :=
  let lvItemIndex :=
    PhFindListViewItemByParam (Service ServiceModifiedData) (ServiceListView st) in
  with_listview
    (PhSetListViewSubItem lvItemIndex 2
       (ProcessIdString (service_at (Mem st) (Service ServiceModifiedData))))
    st.

Definition PhMainWndOnServiceRemoved (ServiceItem : nat) (st : State) : State :=
  let st :=
    with_listview
      (fun lv => PhRemoveListViewItem (PhFindListViewItemByParam ServiceItem lv) lv)
      st in
  with_objects (PhDereferenceObject ServiceItem) st.

Definition PhMainWndOnServicesUpdated (st : State) : State :=
  with_listview ExtendedListView_Tick st.

(** (ULONG)wParam *)
Definition ULONG_of (w : Z) : Z := w mod 2 ^ 32.

(** The WM_PH_ cases of the window procedure (lines 1097-1140). *)
Definition PhMainWndProc (uMsg : Message) (st : State) : State :=
  match uMsg with
  | WM_PH_PROCESS_ADDED lParam => PhMainWndOnProcessAdded lParam st
  | WM_PH_PROCESS_MODIFIED lParam => PhMainWndOnProcessModified lParam st
  | WM_PH_PROCESS_REMOVED lParam => PhMainWndOnProcessRemoved lParam st
  | WM_PH_SERVICE_ADDED wParam lParam =>
      let runId := ULONG_of wParam in
      let st := PhMainWndOnServiceAdded runId lParam st in
      with_objects (PhDereferenceObject lParam) st
  | WM_PH_SERVICE_MODIFIED lParam => PhMainWndOnServiceModified lParam st
  | WM_PH_SERVICE_REMOVED lParam => PhMainWndOnServiceRemoved lParam st
  | WM_PH_SERVICES_UPDATED => PhMainWndOnServicesUpdated st
  end.

(** ** Window creation and scheduling *)

(** The part of [PhMainWndOnCreate] (lines 1436-1514) the handlers depend
    on: an empty process tree, an empty service list view with state
    highlighting switched on (line 1469), and nothing posted yet.  [counts]
    are the reference counts the providers hold at that moment; the log of
    object manager calls starts empty. *)
Definition PhMainWndOnCreate (counts : gmap nat nat) (m : Memory) (runId : Z)
    : State :=
  {| Objects := {| RefCount := counts; Destroyed := []; Calls := [] |};
     Mem := m;
     ServiceProviderRunId := runId;
     MessageQueue := [];
     ProcessNodeList := [];
     ServiceListView :=
       ExtendedListView_SetStateHighlighting true
         {| StateHighlighting := false; Rows := [] |} |}.

(** The provider events the callbacks are registered on (lines 1471-1513). *)
Inductive ProviderEvent :=
| PhProcessAddedEvent (p : nat)
| PhProcessModifiedEvent (p : nat)
| PhProcessRemovedEvent (p : nat)
| PhServiceAddedEvent (s : nat)
| PhServiceModifiedEvent (d : PH_SERVICE_MODIFIED_DATA)
| PhServiceRemovedEvent (s : nat)
| PhServicesUpdatedEvent.

(** PhInvokeCallbacks on an event runs the callback registered for it. *)
Definition invoke_callback (e : ProviderEvent) (st : State) : State :=
  match e with
  | PhProcessAddedEvent p => ProcessAddedHandler p st
  | PhProcessModifiedEvent p => ProcessModifiedHandler p st
  | PhProcessRemovedEvent p => ProcessRemovedHandler p st
  | PhServiceAddedEvent s => ServiceAddedHandler s st
  | PhServiceModifiedEvent d => ServiceModifiedHandler d st
  | PhServiceRemovedEvent s => ServiceRemovedHandler s st
  | PhServicesUpdatedEvent => ServicesUpdatedHandler st
  end.

(** The message loop takes the oldest posted message and hands it to the
    window procedure. *)
Definition DispatchMessage (st : State) : State :=
  match MessageQueue st with
  | [] => st
  | m :: q => PhMainWndProc m (with_queue q st)
  end.

Definition next_run (st : State) : State :=
  {| Objects := Objects st; Mem := Mem st;
     ServiceProviderRunId := ServiceProviderRunId st + 1;
     MessageQueue := MessageQueue st;
     ProcessNodeList := ProcessNodeList st;
     ServiceListView := ServiceListView st |}.

(** One step of the whole program: a provider thread raises an event, the
    service provider finishes a run, or the window thread dispatches one
    message. *)
Inductive Step :=
| Raise (e : ProviderEvent)
| RunCompleted
| Dispatch.

Definition step (st : State) (s : Step) : State :=
  match s with
  | Raise e => invoke_callback e st
  | RunCompleted => next_run st
  | Dispatch => DispatchMessage st
  end.

Definition run (sch : list Step) (st : State) : State := foldl step st sch.

(** The object a message or an event carries. *)
Definition message_object (m : Message) : option nat :=
  match m with
  | WM_PH_PROCESS_ADDED p | WM_PH_PROCESS_MODIFIED p | WM_PH_PROCESS_REMOVED p => Some p
  | WM_PH_SERVICE_ADDED _ s | WM_PH_SERVICE_REMOVED s => Some s
  | WM_PH_SERVICE_MODIFIED d => Some (Service d)
  | WM_PH_SERVICES_UPDATED => None
  end.

Definition refers (o : nat) (m : Message) : bool :=
  bool_decide (message_object m = Some o).

(** The posted, not yet dispatched messages that carry [o]. *)
Definition pending (o : nat) (st : State) : list Message :=
  List.filter (refers o) (MessageQueue st).

Definition is_removed_message (m : Message) : bool :=
  match m with
  | WM_PH_PROCESS_REMOVED _ | WM_PH_SERVICE_REMOVED _ => true
  | _ => false
  end.

(** The order in which a provider raises events about one entity:
    Added once, then any number of Modified, then Removed once. *)
Inductive Phase := Unseen | Live | Retired.

Inductive EventKind := KAdded | KModified | KRemoved.

Definition event_about (e : ProviderEvent) : option (nat * EventKind) :=
  match e with
  | PhProcessAddedEvent p => Some (p, KAdded)
  | PhProcessModifiedEvent p => Some (p, KModified)
  | PhProcessRemovedEvent p => Some (p, KRemoved)
  | PhServiceAddedEvent s => Some (s, KAdded)
  | PhServiceModifiedEvent d => Some (Service d, KModified)
  | PhServiceRemovedEvent s => Some (s, KRemoved)
  | PhServicesUpdatedEvent => None
  end.

Definition next_phase (o : nat) (ph : Phase) (e : ProviderEvent) : option Phase :=
  match event_about e with
  | None => Some ph
  | Some (o', k) =>
      if bool_decide (o' = o) then
        match ph, k with
        | Unseen, KAdded => Some Live
        | Live, KModified => Some Live
        | Live, KRemoved => Some Retired
        | _, _ => None
        end
      else Some ph
  end.

Fixpoint lifecycle (o : nat) (ph : Phase) (sch : list Step) : option Phase :=
  match sch with
  | [] => Some ph
  | Raise e :: rest =>
      match next_phase o ph e with
      | Some ph' => lifecycle o ph' rest
      | None => None
      end
  | _ :: rest => lifecycle o ph rest
  end.

(** What dispatching a message does to the object manager (lines 1097-1140
    with the handlers of lines 2003-2069). *)
Definition message_refs (m : Message) (om : ObjectManager) : ObjectManager :=
  match m with
  | WM_PH_SERVICE_ADDED _ s => PhDereferenceObject s (PhReferenceObject s om)
  | WM_PH_PROCESS_REMOVED p | WM_PH_SERVICE_REMOVED p => PhDereferenceObject p om
  | _ => om
  end.

Definition no_removed (q : list Message) : Prop :=
  Forall (fun m => is_removed_message m = false) q.

(** The invariant behind the reference counting of one entity [o] whose
    providers held [base] references when the window was created, stated
    on the object manager [om] and the undispatched messages [pend] about
    [o]. *)
Definition lifecycle_inv_on (base o : nat) (ph : Phase)
    (om : ObjectManager) (pend : list Message) : Prop :=
  (count_of om o + releases o om = base + acquires o om)%nat /\
  match ph with
  | Unseen =>
      pend = [] /\ acquires o om = releases o om /\ o ∉ Destroyed om
  | Live =>
      no_removed pend /\
      acquires o om = S (releases o om) /\ o ∉ Destroyed om
  | Retired =>
      (exists pre r,
          pend = pre ++ [r] /\ no_removed pre /\
          is_removed_message r = true /\
          acquires o om = S (releases o om) /\ o ∉ Destroyed om)
      \/ (pend = [] /\ acquires o om = releases o om)
  end.

Definition lifecycle_inv (base o : nat) (ph : Phase) (st : State) : Prop :=
  lifecycle_inv_on base o ph (Objects st) (pending o st).




(** ** Example data *)

Definition example_memory : Memory :=
  {| ProcessItems :=
       {[ 7%nat := {| ProcessId := 1234; ProcessName := "notepad.exe" |};
          8%nat := {| ProcessId := 4321; ProcessName := "calc.exe" |} ]};
     ServiceItems :=
       {[ 5%nat := {| Name := "Spooler"; DisplayName := "Print Spooler";
                      ProcessIdString := "1500" |};
          6%nat := {| Name := "Themes"; DisplayName := "Themes";
                      ProcessIdString := "" |} ]} |}.

(** A whole life of process item 7: added, modified, shown, removed. *)
Definition example_schedule : list Step :=
  [Raise (PhProcessAddedEvent 7); Raise (PhProcessModifiedEvent 7); Dispatch;
   Raise (PhProcessRemovedEvent 7); Dispatch; Dispatch].


End MainWnd.

Module Highlighting.

(** ** Items *)

(** A colour is its ARGB value.  [Colors] is the dictionary filled by the
    static constructor (lines 2117-2121); it has no entry for [Normal],
    and the code below only indexes it at [New] and [Removed]. *)
Definition Colors (s : ListViewItemState) : Z :=
  match s with
  | New => 0xe0f0e0
  | Removed => 0xf0e0e0
  | Normal => 0
  end.

(** SystemColors.Window, the default window background. *)
Definition SystemColors_Window : Z := 0xffffffff.

(** The foreground colour is kept symbolically: PhUtils.GetForeColor is
    outside this file, and all the code does with it is apply it to the
    current background. *)
Inductive Foreground :=
| SystemColors_WindowText
| GetForeColor (back : Z).

Record HighlightedListViewItem := {
  ItemText : string;
  BackColor : Z;
  ForeColor : Foreground;
  _normalColor : Z;
  _state : ListViewItemState
}.

(** ** Delegates *)

(** The MethodInvoker delegates handed to [Enqueue] and [EnqueuePost]:
    the lambdas of the constructor and of Remove, and [Callback] for any
    other client delegate, described by the calls to [Enqueue] and
    [EnqueuePost] it makes when invoked.  Delegates run to completion.
    The members SetTemporaryState and NormalColor are not embedded. *)
#[warnings="-register-all"]
Inductive MethodInvoker :=
| RestoreNormal (item : nat)     (* lines 2266-2271 *)
| ShowRemoved (item : nat)       (* lines 2283-2289 *)
| BaseRemove (item : nat)        (* line 2288, this.BaseRemove *)
| Callback (id : nat) (enqueue : list MethodInvoker)
           (enqueuePost : list MethodInvoker).

Inductive Lock := Lock_queue | Lock_postQueue | Lock_postQueuePending.

Global Instance Lock_eq_dec : EqDecision Lock.
Proof. solve_decision. Defined.

(** The two delegates [Tick] posts to the list with BeginInvoke: the outer
    lambda (lines 2167-2213) and the lambda of the timer callback
    (lines 2187-2208). *)
Inductive Posted := TickBatch | TimerBatch.

(** ** The world: statics, the list, the context, timers *)

Record World := {
  Now : Z;                                  (* clock, in milliseconds *)
  _highlightingDuration : Z;                (* static *)
  _stateHighlighting : bool;                (* static *)
  IsHandleCreated : bool;                   (* _list.IsHandleCreated *)
  UpdateDepth : nat;                        (* BeginUpdate / EndUpdate *)
  ListItems : list nat;                     (* _list.Items *)
  InvokeQueue : list Posted;                (* posted with _list.BeginInvoke *)
  Heap : gmap nat HighlightedListViewItem;  (* the item objects *)
  _queue : list MethodInvoker;
  _postQueue : list MethodInvoker;
  _postQueuePending : list MethodInvoker;
  Timers : list (option Z);                 (* live timers: due time, None = never *)
  Locked : list Lock;                       (* monitors held, innermost first *)
  Executed : list (MethodInvoker * list Lock)
    (* every delegate invoked so far, with the monitors held at that moment *)
}.

Definition set_Now (x : Z) (w : World) : World :=
  {| Now := x; _highlightingDuration := _highlightingDuration w;
     _stateHighlighting := _stateHighlighting w;
     IsHandleCreated := IsHandleCreated w; UpdateDepth := UpdateDepth w;
     ListItems := ListItems w; InvokeQueue := InvokeQueue w; Heap := Heap w;
     _queue := _queue w; _postQueue := _postQueue w;
     _postQueuePending := _postQueuePending w; Timers := Timers w;
     Locked := Locked w; Executed := Executed w |}.

Definition set_highlightingDuration (x : Z) (w : World) : World :=
  {| Now := Now w; _highlightingDuration := x;
     _stateHighlighting := _stateHighlighting w;
     IsHandleCreated := IsHandleCreated w; UpdateDepth := UpdateDepth w;
     ListItems := ListItems w; InvokeQueue := InvokeQueue w; Heap := Heap w;
     _queue := _queue w; _postQueue := _postQueue w;
     _postQueuePending := _postQueuePending w; Timers := Timers w;
     Locked := Locked w; Executed := Executed w |}.

Definition set_stateHighlighting (x : bool) (w : World) : World :=
  {| Now := Now w; _highlightingDuration := _highlightingDuration w;
     _stateHighlighting := x;
     IsHandleCreated := IsHandleCreated w; UpdateDepth := UpdateDepth w;
     ListItems := ListItems w; InvokeQueue := InvokeQueue w; Heap := Heap w;
     _queue := _queue w; _postQueue := _postQueue w;
     _postQueuePending := _postQueuePending w; Timers := Timers w;
     Locked := Locked w; Executed := Executed w |}.

Definition set_IsHandleCreated (x : bool) (w : World) : World :=
  {| Now := Now w; _highlightingDuration := _highlightingDuration w;
     _stateHighlighting := _stateHighlighting w;
     IsHandleCreated := x; UpdateDepth := UpdateDepth w;
     ListItems := ListItems w; InvokeQueue := InvokeQueue w; Heap := Heap w;
     _queue := _queue w; _postQueue := _postQueue w;
     _postQueuePending := _postQueuePending w; Timers := Timers w;
     Locked := Locked w; Executed := Executed w |}.

Definition set_UpdateDepth (x : nat) (w : World) : World :=
  {| Now := Now w; _highlightingDuration := _highlightingDuration w;
     _stateHighlighting := _stateHighlighting w;
     IsHandleCreated := IsHandleCreated w; UpdateDepth := x;
     ListItems := ListItems w; InvokeQueue := InvokeQueue w; Heap := Heap w;
     _queue := _queue w; _postQueue := _postQueue w;
     _postQueuePending := _postQueuePending w; Timers := Timers w;
     Locked := Locked w; Executed := Executed w |}.

Definition set_ListItems (x : list nat) (w : World) : World :=
  {| Now := Now w; _highlightingDuration := _highlightingDuration w;
     _stateHighlighting := _stateHighlighting w;
     IsHandleCreated := IsHandleCreated w; UpdateDepth := UpdateDepth w;
     ListItems := x; InvokeQueue := InvokeQueue w; Heap := Heap w;
     _queue := _queue w; _postQueue := _postQueue w;
     _postQueuePending := _postQueuePending w; Timers := Timers w;
     Locked := Locked w; Executed := Executed w |}.

Definition set_InvokeQueue (x : list Posted) (w : World) : World :=
  {| Now := Now w; _highlightingDuration := _highlightingDuration w;
     _stateHighlighting := _stateHighlighting w;
     IsHandleCreated := IsHandleCreated w; UpdateDepth := UpdateDepth w;
     ListItems := ListItems w; InvokeQueue := x; Heap := Heap w;
     _queue := _queue w; _postQueue := _postQueue w;
     _postQueuePending := _postQueuePending w; Timers := Timers w;
     Locked := Locked w; Executed := Executed w |}.

Definition set_Heap (x : gmap nat HighlightedListViewItem) (w : World) : World :=
  {| Now := Now w; _highlightingDuration := _highlightingDuration w;
     _stateHighlighting := _stateHighlighting w;
     IsHandleCreated := IsHandleCreated w; UpdateDepth := UpdateDepth w;
     ListItems := ListItems w; InvokeQueue := InvokeQueue w; Heap := x;
     _queue := _queue w; _postQueue := _postQueue w;
     _postQueuePending := _postQueuePending w; Timers := Timers w;
     Locked := Locked w; Executed := Executed w |}.

Definition set_queue (x : list MethodInvoker) (w : World) : World :=
  {| Now := Now w; _highlightingDuration := _highlightingDuration w;
     _stateHighlighting := _stateHighlighting w;
     IsHandleCreated := IsHandleCreated w; UpdateDepth := UpdateDepth w;
     ListItems := ListItems w; InvokeQueue := InvokeQueue w; Heap := Heap w;
     _queue := x; _postQueue := _postQueue w;
     _postQueuePending := _postQueuePending w; Timers := Timers w;
     Locked := Locked w; Executed := Executed w |}.

Definition set_postQueue (x : list MethodInvoker) (w : World) : World :=
  {| Now := Now w; _highlightingDuration := _highlightingDuration w;
     _stateHighlighting := _stateHighlighting w;
     IsHandleCreated := IsHandleCreated w; UpdateDepth := UpdateDepth w;
     ListItems := ListItems w; InvokeQueue := InvokeQueue w; Heap := Heap w;
     _queue := _queue w; _postQueue := x;
     _postQueuePending := _postQueuePending w; Timers := Timers w;
     Locked := Locked w; Executed := Executed w |}.

Definition set_postQueuePending (x : list MethodInvoker) (w : World) : World :=
  {| Now := Now w; _highlightingDuration := _highlightingDuration w;
     _stateHighlighting := _stateHighlighting w;
     IsHandleCreated := IsHandleCreated w; UpdateDepth := UpdateDepth w;
     ListItems := ListItems w; InvokeQueue := InvokeQueue w; Heap := Heap w;
     _queue := _queue w; _postQueue := _postQueue w;
     _postQueuePending := x; Timers := Timers w;
     Locked := Locked w; Executed := Executed w |}.

Definition set_Timers (x : list (option Z)) (w : World) : World :=
  {| Now := Now w; _highlightingDuration := _highlightingDuration w;
     _stateHighlighting := _stateHighlighting w;
     IsHandleCreated := IsHandleCreated w; UpdateDepth := UpdateDepth w;
     ListItems := ListItems w; InvokeQueue := InvokeQueue w; Heap := Heap w;
     _queue := _queue w; _postQueue := _postQueue w;
     _postQueuePending := _postQueuePending w; Timers := x;
     Locked := Locked w; Executed := Executed w |}.

Definition set_Locked (x : list Lock) (w : World) : World :=
  {| Now := Now w; _highlightingDuration := _highlightingDuration w;
     _stateHighlighting := _stateHighlighting w;
     IsHandleCreated := IsHandleCreated w; UpdateDepth := UpdateDepth w;
     ListItems := ListItems w; InvokeQueue := InvokeQueue w; Heap := Heap w;
     _queue := _queue w; _postQueue := _postQueue w;
     _postQueuePending := _postQueuePending w; Timers := Timers w;
     Locked := x; Executed := Executed w |}.

Definition set_Executed (x : list (MethodInvoker * list Lock)) (w : World) : World :=
  {| Now := Now w; _highlightingDuration := _highlightingDuration w;
     _stateHighlighting := _stateHighlighting w;
     IsHandleCreated := IsHandleCreated w; UpdateDepth := UpdateDepth w;
     ListItems := ListItems w; InvokeQueue := InvokeQueue w; Heap := Heap w;
     _queue := _queue w; _postQueue := _postQueue w;
     _postQueuePending := _postQueuePending w; Timers := Timers w;
     Locked := Locked w; Executed := x |}.

(** ** Monitors, update brackets, posting *)

(** lock (x) { ... }: the monitor is taken on entry and released on exit;
    monitors are re-entrant. *)
Definition lock (l : Lock) (w : World) : World := set_Locked (l :: Locked w) w.

Fixpoint release (l : Lock) (held : list Lock) : list Lock :=
  match held with
  | [] => []
  | l' :: rest => if bool_decide (l' = l) then rest else l' :: release l rest
  end.

Definition unlock (l : Lock) (w : World) : World :=
  set_Locked (release l (Locked w)) w.

Definition BeginUpdate (w : World) : World := set_UpdateDepth (S (UpdateDepth w)) w.
Definition EndUpdate (w : World) : World := set_UpdateDepth (Nat.pred (UpdateDepth w)) w.

(** _list.BeginInvoke(d): the delegate is queued for the thread that owns
    the list's handle. *)
Definition BeginInvoke (d : Posted) (w : World) : World :=
  set_InvokeQueue (InvokeQueue w ++ [d]) w.

(** ** HighlightingContext.Enqueue and EnqueuePost (lines 2216-2226) *)

Definition Enqueue (method : MethodInvoker) (w : World) : World :=
  let w := lock Lock_queue w in
  let w := set_queue (_queue w ++ [method]) w in
  unlock Lock_queue w.

Definition EnqueuePost (method : MethodInvoker) (w : World) : World :=
  let w := lock Lock_postQueuePending w in
  let w := set_postQueuePending (_postQueuePending w ++ [method]) w in
  unlock Lock_postQueuePending w.

(** ** The item class (lines 2237-2300) *)

Definition store (this : nat) (it : HighlightedListViewItem) (w : World) : World :=
  set_Heap (<[this := it]> (Heap w)) w.

Definition update_item (this : nat)
    (f : HighlightedListViewItem -> HighlightedListViewItem) (w : World) : World :=
  match Heap w !! this with
  | Some it => store this (f it) w
  | None => w
  end.

(** BackColor = c; ForeColor = PhUtils.GetForeColor(BackColor); and, when
    [st] is given, _state = st. *)
Definition paint (c : Z) (st : option ListViewItemState)
    (it : HighlightedListViewItem) : HighlightedListViewItem :=
  {| ItemText := ItemText it;
     BackColor := c;
     ForeColor := GetForeColor c;
     _normalColor := _normalColor it;
     _state := default (_state it) st |}.

(** base.Remove(): the item leaves the list it is in. *)
Definition base_Remove (this : nat) (w : World) : World :=
  set_ListItems (List.filter (fun i => negb (bool_decide (i = this))) (ListItems w)) w.

(** The constructor (lines 2255-2277); [this] is the address of the new
    object.  The field initialisers give _normalColor = SystemColors.Window
    and _state = Normal. *)
Definition HighlightedListViewItem_ctor (this : nat) (text : string)
    (highlight : bool) (w : World) : World :=
  let fresh := {| ItemText := text;
                  BackColor := SystemColors_Window;
                  ForeColor := SystemColors_WindowText;
                  _normalColor := SystemColors_Window;
                  _state := Normal |} in
  if _stateHighlighting w && highlight then
    let w := store this (paint (Colors New) (Some New) fresh) w in
    EnqueuePost (RestoreNormal this) w
  else
    store this
      {| ItemText := ItemText fresh;
         BackColor := _normalColor fresh;
         ForeColor := ForeColor fresh;
         _normalColor := _normalColor fresh;
         _state := _state fresh |} w.

(** Remove (lines 2279-2295). *)
Definition Remove (this : nat) (w : World) : World :=
  if _stateHighlighting w then Enqueue (ShowRemoved this) w
  else base_Remove this w.

(** _list.Items.Add(item) *)
Definition Items_Add (this : nat) (w : World) : World :=
  set_ListItems (ListItems w ++ [this]) w.

(** ** Invoking a delegate *)

(** What a delegate does when invoked.  [RestoreNormal] is the lambda of
    lines 2266-2271, [ShowRemoved] the lambda of lines 2283-2289,
    [BaseRemove] the method of lines 2297-2300; a [Callback] makes its
    calls to [Enqueue] and [EnqueuePost]. *)
Definition body (m : MethodInvoker) (w : World) : World :=
  match m with
  | RestoreNormal this =>
      update_item this (fun it => paint (_normalColor it) (Some Normal) it) w
  | ShowRemoved this =>
      let w := update_item this (paint (Colors Removed) None) w in
      EnqueuePost (BaseRemove this) w
  | BaseRemove this => base_Remove this w
  | Callback _ enqueue enqueuePost =>
      let w := foldl (fun w m => Enqueue m w) w enqueue in
      foldl (fun w m => EnqueuePost m w) w enqueuePost
  end.

(** d.Invoke(): recorded in [Executed] together with the monitors held. *)
Definition Invoke (m : MethodInvoker) (w : World) : World :=
  body m (set_Executed (Executed w ++ [(m, Locked w)]) w).

(** ** The loops of Tick *)

(** while (_queue.Count > 0) _queue.Dequeue().Invoke(); *)
Fixpoint drain_queue (fuel : nat) (w : World) : World :=
  match fuel with
  | O => w
  | S fuel' =>
      match _queue w with
      | [] => w
      | m :: q => drain_queue fuel' (Invoke m (set_queue q w))
      end
  end.

(** A delegate in the immediate queue may enqueue further delegates to it;
    the loop runs those too.  [weight] counts a delegate together with all
    the delegates it can put on the immediate queue. *)
Fixpoint weight (m : MethodInvoker) : nat :=
  match m with
  | Callback _ enqueue _ =>
      S ((fix total (l : list MethodInvoker) : nat :=
            match l with
            | [] => O
            | x :: r => (weight x + total r)%nat
            end) enqueue)
  | _ => 1%nat
  end.

Fixpoint queue_weight (q : list MethodInvoker) : nat :=
  match q with
  | [] => O
  | m :: r => (weight m + queue_weight r)%nat
  end.

Definition run_queue (w : World) : World :=
  drain_queue (queue_weight (_queue w)) w.

(** while (_postQueue.Count > 0) _postQueue.Dequeue().Invoke(); *)
Fixpoint drain_postQueue (fuel : nat) (w : World) : World :=
  match fuel with
  | O => w
  | S fuel' =>
      match _postQueue w with
      | [] => w
      | m :: q => drain_postQueue fuel' (Invoke m (set_postQueue q w))
      end
  end.

Definition run_postQueue (w : World) : World :=
  drain_postQueue (length (_postQueue w)) w.

(** while (_postQueuePending.Count > 0)
        _postQueue.Enqueue(_postQueuePending.Dequeue()); *)
Fixpoint transfer_pending (fuel : nat) (w : World) : World :=
  match fuel with
  | O => w
  | S fuel' =>
      match _postQueuePending w with
      | [] => w
      | m :: q =>
          transfer_pending fuel'
            (set_postQueue (_postQueue w ++ [m]) (set_postQueuePending q w))
      end
  end.

Definition run_transfer (w : World) : World :=
  transfer_pending (length (_postQueuePending w)) w.

(** ** Tick (lines 2162-2214) *)

(** new System.Threading.Timer(callback, null, dueTime, Timeout.Infinite):
    a one-shot timer due [dueTime] milliseconds from now; -1 is
    Timeout.Infinite, a smaller value is rejected with an exception and
    no timer exists. *)
Definition new_Timer (dueTime : Z) (w : World) : World :=
  if bool_decide (dueTime < -1) then w
  else if bool_decide (dueTime = -1) then set_Timers (Timers w ++ [None]) w
  else set_Timers (Timers w ++ [Some (Now w + dueTime)]) w.

(** The delegate posted by the timer callback (lines 2187-2208), in its two
    parts: the delayed batch (lines 2189-2197) and the re-enqueueing of the
    pending items (lines 2199-2207). *)
Definition TimerBatch_execute (w : World) : World :=
  let w := BeginUpdate w in
  let w := lock Lock_postQueue w in
  let w := run_postQueue w in
  let w := unlock Lock_postQueue w in
  EndUpdate w.

Definition TimerBatch_requeue (w : World) : World :=
  let w := lock Lock_postQueuePending w in
  let w := lock Lock_postQueue w in
  let w := run_transfer w in
  let w := unlock Lock_postQueue w in
  unlock Lock_postQueuePending w.

Definition TimerBatch_body (w : World) : World :=
  TimerBatch_requeue (TimerBatch_execute w).

(** The delegate posted by Tick (lines 2167-2213). *)
Definition TickBatch_body (w : World) : World :=
  let w := BeginUpdate w in
  let w := lock Lock_queue w in
  let w := run_queue w in
  let w := unlock Lock_queue w in
  let w := EndUpdate w in
  new_Timer (_highlightingDuration w) w.

Definition Tick (w : World) : World :=
  if negb (IsHandleCreated w) then w
  else BeginInvoke TickBatch w.

(** The callback of the [k]-th live timer (lines 2183-2212), run when the
    timer is due. *)
Definition TimerCallback (k : nat) (w : World) : World :=
  match Timers w !! k with
  | Some (Some due) =>
      if bool_decide (due <= Now w) then
        let w := if IsHandleCreated w then BeginInvoke TimerBatch w else w in
        set_Timers (delete k (Timers w)) w
      else w
  | _ => w
  end.

(** ** The host: message pump, clock, handle *)

Definition run_posted (d : Posted) (w : World) : World :=
  match d with
  | TickBatch => TickBatch_body w
  | TimerBatch => TimerBatch_body w
  end.

(** The thread owning the list takes the oldest posted delegate and runs
    it.  Delegates still queued when the handle is destroyed are dropped
    by the control and never run. *)
Definition Pump (w : World) : World :=
  match InvokeQueue w with
  | [] => w
  | d :: q =>
      let w := set_InvokeQueue q w in
      if IsHandleCreated w then run_posted d w else w
  end.

Definition Sleep (ms : Z) (w : World) : World := set_Now (Now w + Z.max 0 ms) w.

Definition DestroyHandle (w : World) : World := set_IsHandleCreated false w.

(** What can happen to a world. *)
Inductive Op :=
| OpSleep (ms : Z)
| OpTick
| OpTimer (k : nat)
| OpPump
| OpNew (this : nat) (text : string) (highlight : bool)
| OpAdd (this : nat)
| OpRemove (this : nat)
| OpEnqueue (m : MethodInvoker)
| OpEnqueuePost (m : MethodInvoker)
| OpStateHighlighting (value : bool)
| OpHighlightingDuration (value : Z)
| OpDestroyHandle.

Definition apply_op (w : World) (o : Op) : World :=
  match o with
  | OpSleep ms => Sleep ms w
  | OpTick => Tick w
  | OpTimer k => TimerCallback k w
  | OpPump => Pump w
  | OpNew this text highlight => HighlightedListViewItem_ctor this text highlight w
  | OpAdd this => Items_Add this w
  | OpRemove this => Remove this w
  | OpEnqueue m => Enqueue m w
  | OpEnqueuePost m => EnqueuePost m w
  | OpStateHighlighting value => set_stateHighlighting value w
  | OpHighlightingDuration value => set_highlightingDuration value w
  | OpDestroyHandle => DestroyHandle w
  end.

Definition play (ops : list Op) (w : World) : World := foldl apply_op w ops.

(** The world after the static initialisers (lines 2114-2115) and the
    construction of a context for a list whose handle exists. *)
Definition startup : World :=
  {| Now := 0; _highlightingDuration := 1000; _stateHighlighting := true;
     IsHandleCreated := true; UpdateDepth := 0; ListItems := [];
     InvokeQueue := []; Heap := ∅;
     _queue := []; _postQueue := []; _postQueuePending := [];
     Timers := []; Locked := []; Executed := [] |}.

Definition state_of (this : nat) (w : World) : option ListViewItemState :=
  _state <$> Heap w !! this.

(** The fields no delegate touches. *)
Definition same_host (w w' : World) : Prop :=
  Now w' = Now w
  /\ _highlightingDuration w' = _highlightingDuration w
  /\ _stateHighlighting w' = _stateHighlighting w
  /\ IsHandleCreated w' = IsHandleCreated w
  /\ UpdateDepth w' = UpdateDepth w
  /\ InvokeQueue w' = InvokeQueue w
  /\ Timers w' = Timers w
  /\ Locked w' = Locked w.

(** The immediate actions a delegate requests when it is invoked. *)
Definition enqueues (m : MethodInvoker) : list MethodInvoker :=
  match m with
  | Callback _ enqueue _ => enqueue
  | _ => []
  end.

(** The delayed actions a delegate requests when it is invoked. *)
Definition requests (m : MethodInvoker) : list MethodInvoker :=
  match m with
  | ShowRemoved this => [BaseRemove this]
  | Callback _ _ enqueuePost => enqueuePost
  | _ => []
  end.

(** Does invoking the delegate restore the Normal state of [this]? *)
Definition restores (this : nat) (m : MethodInvoker) : bool :=
  match m with
  | RestoreNormal that => bool_decide (that = this)
  | _ => false
  end.

(** ** Example worlds *)

(** One item was added and removed, a Tick is posted and a timer is due,
    and the list's handle is destroyed. *)
Definition torn_down : World :=
  play [OpNew 1 "svchost.exe" true; OpAdd 1; OpRemove 1; OpTick; OpPump;
        OpTick; OpSleep 1000; OpDestroyHandle] startup.

(** Item 2 was added and removed; its decay and its removal wait in the
    delayed queue. *)
Definition in_flight : World :=
  play [OpNew 2 "lsass.exe" true; OpAdd 2; OpRemove 2; OpTick; OpPump;
        OpSleep 1000; OpTimer 0; OpPump] startup.


(** ** The NormalColor property and the effect of delegates on items *)

(** The setter of NormalColor (lines 2305-2314). *)
Definition set_NormalColor (this : nat) (value : Z) (w : World) : World :=
  update_item this
    (fun it =>
       let it' := {| ItemText := ItemText it;
                     BackColor := BackColor it;
                     ForeColor := ForeColor it;
                     _normalColor := value;
                     _state := _state it |} in
       if bool_decide (_state it = Normal) then paint value None it' else it')
    w.

(** What invoking a delegate does to the item objects, and to the items
    of the list. *)
Definition heap_step (h : gmap nat HighlightedListViewItem) (m : MethodInvoker)
    : gmap nat HighlightedListViewItem :=
  match m with
  | RestoreNormal this =>
      alter (fun it => paint (_normalColor it) (Some Normal) it) this h
  | ShowRemoved this => alter (paint (Colors Removed) None) this h
  | _ => h
  end.

Definition items_step (l : list nat) (m : MethodInvoker) : list nat :=
  match m with
  | BaseRemove this => List.filter (fun i => negb (bool_decide (i = this))) l
  | _ => l
  end.

(** Does the delegate repaint [this]; does it remove [this] from the
    list? *)
Definition paints (this : nat) (m : MethodInvoker) : bool :=
  match m with
  | RestoreNormal that | ShowRemoved that => bool_decide (that = this)
  | _ => false
  end.


End Highlighting.

(** * The main window's commands, menus and child windows *)

Module MainWndUi.
Import MainWnd.

(** ** References held while a command runs *)




(** How often [o] was destroyed. *)
Definition destructions (o : nat) (om : ObjectManager) : nat :=
  length (List.filter (fun x => bool_decide (x = o)) (Destroyed om)).

(** The balance of the window's references together with: [o] was
    destroyed at most once, and only when nothing else held it. *)
Definition once_inv (base o : nat) (ph : Phase) (st : State) : Prop :=
  lifecycle_inv base o ph st
  /\ (destructions o (Objects st) <= 1)%nat
  /\ ((o ∈ Destroyed (Objects st)) -> base = 0%nat).

(** The command identifiers of WM_COMMAND whose handler passes the one
    selected process or service to an operation (lines 634-963).  The
    ID_WINDOW_ commands, which work on a window handle, and
    ID_PROCESS_SEARCHONLINE, which only reads the name of the process,
    are left out. *)
Inductive CommandId :=
| ID_PROCESS_DEBUG
| ID_PROCESS_VIRTUALIZATION
| ID_PROCESS_AFFINITY
| ID_PROCESS_CREATEDUMPFILE
| ID_PROCESS_TERMINATOR
| ID_MISCELLANEOUS_DETACHFROMDEBUGGER
| ID_MISCELLANEOUS_HEAPS
| ID_MISCELLANEOUS_INJECTDLL
| ID_I_0 | ID_I_1 | ID_I_2 | ID_I_3
| ID_PROCESS_PROPERTIES
| ID_PRIORITY_REALTIME
| ID_PRIORITY_HIGH
| ID_PRIORITY_ABOVENORMAL
| ID_PRIORITY_NORMAL
| ID_PRIORITY_BELOWNORMAL
| ID_PRIORITY_IDLE
| ID_SERVICE_START
| ID_SERVICE_CONTINUE
| ID_SERVICE_PAUSE
| ID_SERVICE_STOP
| ID_SERVICE_DELETE
| ID_SERVICE_PROPERTIES.

Global Instance CommandId_eq_dec : EqDecision CommandId.
Proof. solve_decision. Defined.

(** The Win32 priority classes. *)
Definition IDLE_PRIORITY_CLASS : Z := 0x40.
Definition BELOW_NORMAL_PRIORITY_CLASS : Z := 0x4000.
Definition NORMAL_PRIORITY_CLASS : Z := 0x20.
Definition ABOVE_NORMAL_PRIORITY_CLASS : Z := 0x8000.
Definition HIGH_PRIORITY_CLASS : Z := 0x80.
Definition REALTIME_PRIORITY_CLASS : Z := 0x100.

(** What PhpGetSelectedProcess and PhpGetSelectedService return ([None] is
    NULL), and the static SelectedProcessVirtualizationEnabled. *)
Record Selection := {
  SelectedProcess : option nat;
  SelectedService : option nat;
  SelectedProcessVirtualizationEnabled : bool
}.




(** The inner switches of lines 759-773 and 805-825, and the argument of
    line 668: the extra argument the handler passes to the operation. *)
Definition command_argument (id : CommandId) (sel : Selection) : option Z :=
  match id with
  | ID_I_0 => Some 0
  | ID_I_1 => Some 1
  | ID_I_2 => Some 2
  | ID_I_3 => Some 3
  | ID_PRIORITY_REALTIME => Some REALTIME_PRIORITY_CLASS
  | ID_PRIORITY_HIGH => Some HIGH_PRIORITY_CLASS
  | ID_PRIORITY_ABOVENORMAL => Some ABOVE_NORMAL_PRIORITY_CLASS
  | ID_PRIORITY_NORMAL => Some NORMAL_PRIORITY_CLASS
  | ID_PRIORITY_BELOWNORMAL => Some BELOW_NORMAL_PRIORITY_CLASS
  | ID_PRIORITY_IDLE => Some IDLE_PRIORITY_CLASS
  | ID_PROCESS_VIRTUALIZATION =>
      Some (if negb (SelectedProcessVirtualizationEnabled sel) then 1 else 0)
  | _ => None
  end.



(** ** The process menu: priority items (lines 1711-1795) *)

(** The switch of lines 1741-1761; [None] is the id 0 for which no item
    is checked. *)
Definition priority_menu_item (priorityClass : Z) : option CommandId :=
  if bool_decide (priorityClass = REALTIME_PRIORITY_CLASS) then Some ID_PRIORITY_REALTIME
  else if bool_decide (priorityClass = HIGH_PRIORITY_CLASS) then Some ID_PRIORITY_HIGH
  else if bool_decide (priorityClass = ABOVE_NORMAL_PRIORITY_CLASS) then Some ID_PRIORITY_ABOVENORMAL
  else if bool_decide (priorityClass = NORMAL_PRIORITY_CLASS) then Some ID_PRIORITY_NORMAL
  else if bool_decide (priorityClass = BELOW_NORMAL_PRIORITY_CLASS) then Some ID_PRIORITY_BELOWNORMAL
  else if bool_decide (priorityClass = IDLE_PRIORITY_CLASS) then Some ID_PRIORITY_IDLE
  else None.

(** Lines 1769-1794; [ioPriority] is a ULONG, and -1 is 0xffffffff. *)
Definition io_priority_menu_item (ioPriority : Z) : option CommandId :=
  if bool_decide (ioPriority <> ULONG_of (-1)) then
    if bool_decide (ioPriority = 0) then Some ID_I_0
    else if bool_decide (ioPriority = 1) then Some ID_I_1
    else if bool_decide (ioPriority = 2) then Some ID_I_2
    else if bool_decide (ioPriority = 3) then Some ID_I_3
    else None
  else None.

Definition is_priority_command (id : CommandId) : bool :=
  match id with
  | ID_PRIORITY_REALTIME | ID_PRIORITY_HIGH | ID_PRIORITY_ABOVENORMAL
  | ID_PRIORITY_NORMAL | ID_PRIORITY_BELOWNORMAL | ID_PRIORITY_IDLE => true
  | _ => false
  end.

Definition is_io_priority_command (id : CommandId) : bool :=
  match id with
  | ID_I_0 | ID_I_1 | ID_I_2 | ID_I_3 => true
  | _ => false
  end.

(** ** The window of the selected process (lines 1589-1608, 1802-1804) *)

(** A top-level window: its handle, what IsWindowVisible answers and the
    process id GetWindowThreadProcessId gives. *)
Record WINDOW := {
  hwnd : Z;
  IsWindowVisible : bool;
  WindowProcessId : Z
}.

(** EnumWindows: the function is called for every top-level window in
    turn until it returns FALSE. *)
Fixpoint EnumWindows {S : Type} (lpEnumFunc : WINDOW -> Z -> S -> bool * S)
    (lParam : Z) (desktop : list WINDOW) (s : S) : S :=
  match desktop with
  | [] => s
  | w :: rest =>
      let '(go_on, s') := lpEnumFunc w lParam s in
      if go_on then EnumWindows lpEnumFunc lParam rest s' else s'
  end.

(** The state is the static SelectedProcessWindowHandle. *)
Definition PhpEnumProcessWindowsProc (w : WINDOW) (lParam : Z)
    (SelectedProcessWindowHandle : Z) : bool * Z :=
  if negb (IsWindowVisible w) then (true, SelectedProcessWindowHandle)
  else if bool_decide (WindowProcessId w = ULONG_of lParam)
       then (false, hwnd w)
       else (true, SelectedProcessWindowHandle).

(** Lines 1803-1804: SelectedProcessWindowHandle = NULL; EnumWindows(...,
    (ULONG)Processes[0]->ProcessId). *)
Definition find_process_window (ProcessId : Z) (desktop : list WINDOW) : Z :=
  EnumWindows PhpEnumProcessWindowsProc (ULONG_of ProcessId) desktop 0.

Definition is_process_window (ProcessId : Z) (w : WINDOW) : bool :=
  IsWindowVisible w && bool_decide (WindowProcessId w = ULONG_of ProcessId).

End MainWndUi.

(** * The main window: tab pages, settings and the users menu *)

Module MainWndShell.

Definition ULONG_of (w : Z) : Z := MainWnd.ULONG_of w.

(** ** Tab pages (lines 1532-1587) *)

(** The three child windows shown inside the tab control. *)
Inductive Page := ProcessTreeList | ServiceListView | NetworkListView.

Global Instance Page_eq_dec : EqDecision Page.
Proof. solve_decision. Defined.

Record RECT := { left : Z; top : Z; right : Z; bottom : Z }.









(** ** Settings and shutdown (lines 362-369, 966-979, 1055-1095, 1183-1221) *)

Definition SW_NORMAL : Z := 1.
Definition SW_MAXIMIZE : Z := 3.
Definition SW_RESTORE : Z := 9.
Definition SC_MINIMIZE : Z := 0xF020.

(** The values handed to the settings functions; the conversion of
    PhRectToRectangle is kept symbolic. *)
Inductive SettingValue :=
| IntegerValue (value : Z)
| RectanglePosition (rcNormalPosition : RECT)
| RectangleSize (rcNormalPosition : RECT).

(** The calls the window procedure makes to the settings functions and to
    the window manager. *)
Inductive ShellCall :=
| PhSetSetting (name : string) (value : SettingValue)
| PhSaveSettings (fileName : string)
| PostQuitMessage
| ShowMainWindow (nCmdShow : Z)
| DestroyWindow.

(** The global PhMainWndExiting, the settings file name, what
    GetWindowPlacement and IsIconic say about the main window, and the
    calls made so far. *)
Record Shell := {
  PhMainWndExiting : bool;
  PhSettingsFileName : option string;
  showCmd : Z;
  rcNormalPosition : RECT;
  IsIconic : bool;
  ShellCalls : list ShellCall
}.

Definition call (c : ShellCall) (sh : Shell) : Shell :=
  {| PhMainWndExiting := PhMainWndExiting sh;
     PhSettingsFileName := PhSettingsFileName sh;
     showCmd := showCmd sh;
     rcNormalPosition := rcNormalPosition sh;
     IsIconic := IsIconic sh;
     ShellCalls := ShellCalls sh ++ [c] |}.

Definition set_PhMainWndExiting (b : bool) (sh : Shell) : Shell :=
  {| PhMainWndExiting := b;
     PhSettingsFileName := PhSettingsFileName sh;
     showCmd := showCmd sh;
     rcNormalPosition := rcNormalPosition sh;
     IsIconic := IsIconic sh;
     ShellCalls := ShellCalls sh |}.

Definition PhpSaveWindowState (sh : Shell) : Shell :=
  if bool_decide (showCmd sh = SW_NORMAL) then
    call (PhSetSetting "MainWindowState" (IntegerValue SW_NORMAL)) sh
  else if bool_decide (showCmd sh = SW_MAXIMIZE) then
    call (PhSetSetting "MainWindowState" (IntegerValue SW_MAXIMIZE)) sh
  else sh.

Definition PhpSaveAllSettings (sh : Shell) : Shell :=
  let sh := call (PhSetSetting "MainWindowPosition"
                    (RectanglePosition (rcNormalPosition sh))) sh in
  let sh := call (PhSetSetting "MainWindowSize"
                    (RectangleSize (rcNormalPosition sh))) sh in
  let sh := PhpSaveWindowState sh in
  match PhSettingsFileName sh with
  | Some fileName => call (PhSaveSettings fileName) sh
  | None => sh
  end.

Definition PhpPrepareForEarlyShutdown (sh : Shell) : Shell :=
  set_PhMainWndExiting true (PhpSaveAllSettings sh).

Definition PhpCancelEarlyShutdown (sh : Shell) : Shell :=
  set_PhMainWndExiting false sh.

Inductive ShellMessage :=
| WM_DESTROY
| WM_SYSCOMMAND (wParam : Z)
| WM_PH_ACTIVATE
| WM_PH_DESTROY
| WM_PH_SAVE_ALL_SETTINGS
| WM_PH_PREPARE_FOR_EARLY_SHUTDOWN
| WM_PH_CANCEL_EARLY_SHUTDOWN.

(** What the window procedure returns for these messages. *)
Inductive LRESULT := PH_ACTIVATE_REPLY | Zero | FromDefWindowProc.

(** The cases of PhMainWndProc for these messages. *)
Definition PhMainWndProc (uMsg : ShellMessage) (sh : Shell) : LRESULT * Shell :=
  match uMsg with
  | WM_DESTROY =>
      let sh := if negb (PhMainWndExiting sh) then PhpSaveAllSettings sh else sh in
      (Zero, call PostQuitMessage sh)
  | WM_SYSCOMMAND wParam =>
      let sh := if bool_decide (wParam = SC_MINIMIZE)
                then PhpSaveWindowState sh else sh in
      (FromDefWindowProc, sh)
  | WM_PH_ACTIVATE =>
      if negb (PhMainWndExiting sh) then
        let sh := if IsIconic sh then call (ShowMainWindow SW_RESTORE) sh else sh in
        (PH_ACTIVATE_REPLY, sh)
      else (Zero, sh)
  | WM_PH_DESTROY => (Zero, call DestroyWindow sh)
  | WM_PH_SAVE_ALL_SETTINGS => (Zero, PhpSaveAllSettings sh)
  | WM_PH_PREPARE_FOR_EARLY_SHUTDOWN => (Zero, PhpPrepareForEarlyShutdown sh)
  | WM_PH_CANCEL_EARLY_SHUTDOWN => (Zero, PhpCancelEarlyShutdown sh)
  end.






(** ** The users menu (lines 527-554, 981-1003, 1223-1302) *)

Inductive UserCommand :=
| ID_USER_CONNECT
| ID_USER_DISCONNECT
| ID_USER_LOGOFF
| ID_USER_SENDMESSAGE
| ID_USER_PROPERTIES.

Global Instance UserCommand_eq_dec : EqDecision UserCommand.
Proof. solve_decision. Defined.

(** A menu item: its identifier when it is one of the user commands
    ([None] for any other item), and its item data. *)
Record MENUITEM := {
  wID : option UserCommand;
  dwItemData : Z
}.

(** A session as WTSEnumerateSessions lists it, with what
    PhIsStringNullOrEmpty says about its domain and user name. *)
Record WTS_SESSION_INFO := {
  SessionId : Z;
  DomainNameNullOrEmpty : bool;
  UserNameNullOrEmpty : bool
}.

(** A popup of the Users menu: the session its text is formatted from,
    and its items. *)
Record USERMENU := {
  MenuSession : WTS_SESSION_INFO;
  MenuItems : list MENUITEM
}.

Definition set_dwItemData (data : Z) (it : MENUITEM) : MENUITEM :=
  {| wID := wID it; dwItemData := data |}.

(** SetMenuItemInfo(userMenu, j, TRUE, &menuItemInfo) with MIIM_DATA. *)
Definition SetMenuItemInfo (j : nat) (data : Z) (items : list MENUITEM)
    : list MENUITEM :=
  alter (set_dwItemData data) j items.

(** The body of the loop over the sessions (lines 1247-1296);
    [IDR_USER] is the submenu LoadMenu gives, a fresh copy each time. *)
Definition add_user_menu (IDR_USER : list MENUITEM) (menu : list USERMENU)
    (session : WTS_SESSION_INFO) : list USERMENU :=
  if DomainNameNullOrEmpty session || UserNameNullOrEmpty session then menu
  else
    let userMenu := IDR_USER in
    let numberOfItems := length userMenu in
    let userMenu :=
      foldl (fun userMenu j => SetMenuItemInfo j (SessionId session) userMenu)
        userMenu (seq 0 numberOfItems) in
    menu ++ [{| MenuSession := session; MenuItems := userMenu |}].

(** [sessions] is what WTSEnumerateSessions gives, [None] when it
    fails.  All items of the menu are deleted first. *)
Definition PhpRefreshUsersMenu (IDR_USER : list MENUITEM)
    (sessions : option (list WTS_SESSION_INFO)) (menu : list USERMENU)
    : list USERMENU :=
  let menu : list USERMENU := [] in
  match sessions with
  | Some sessions => foldl (add_user_menu IDR_USER) menu sessions
  | None => menu
  end.

(** GetMenuItemInfo(hMenu, id, FALSE, &menuItemInfo): the item of the
    menu with that identifier, if there is one. *)
Definition GetMenuItemInfo (hMenu : list MENUITEM) (id : UserCommand)
    : option MENUITEM :=
  List.find (fun it => bool_decide (wID it = Some id)) hMenu.

(** WM_MENUSELECT (lines 981-1003): the new SelectedUserSessionId. *)
Definition PhMainWndOnMenuSelect (item : option UserCommand)
    (hMenu : list MENUITEM) (SelectedUserSessionId : Z) : Z :=
  match item with
  | Some id =>
      match GetMenuItemInfo hMenu id with
      | Some menuItemInfo => ULONG_of (dwItemData menuItemInfo)
      | None => SelectedUserSessionId
      end
  | None => SelectedUserSessionId
  end.

(** The session operation a user command starts (lines 530-554). *)
Record SessionCall := {
  UserOperation : UserCommand;
  OnSession : Z
}.

Definition PhMainWndOnUserCommand (id : UserCommand)
    (SelectedUserSessionId : Z) : SessionCall :=
  {| UserOperation := id; OnSession := SelectedUserSessionId |}.

Definition shown_session (s : WTS_SESSION_INFO) : bool :=
  negb (DomainNameNullOrEmpty s || UserNameNullOrEmpty s).

(** The submenu of a session: the items of IDR_USER, each carrying the
    session id. *)
Definition user_menu_of (IDR_USER : list MENUITEM) (s : WTS_SESSION_INFO)
    : USERMENU :=
  {| MenuSession := s;
     MenuItems := map (set_dwItemData (SessionId s)) IDR_USER |}.

End MainWndShell.

(** * Theorems about the main window *)

Module MainWndTheory.
Import MainWnd.

(** ** Effect of one reference or dereference on the three counters *)

Lemma filter_snoc {A} (f : A -> bool) (l : list A) (x : A) :
  List.filter f (l ++ [x]) = List.filter f l ++ (if f x then [x] else []).
Proof. rewrite List.filter_app. reflexivity. Qed.

Lemma reference_same o om :
  count_of (PhReferenceObject o om) o = S (count_of om o)
  /\ acquires o (PhReferenceObject o om) = S (acquires o om)
  /\ releases o (PhReferenceObject o om) = releases o om
  /\ Destroyed (PhReferenceObject o om) = Destroyed om.
Proof.
  unfold count_of, acquires, releases, PhReferenceObject; simpl.
  rewrite lookup_insert_eq, !filter_snoc; simpl.
  rewrite bool_decide_eq_true_2 by reflexivity.
  rewrite !length_app; simpl. repeat split; lia.
Qed.

Lemma reference_other o o' om :
  o' <> o ->
  count_of (PhReferenceObject o' om) o = count_of om o
  /\ acquires o (PhReferenceObject o' om) = acquires o om
  /\ releases o (PhReferenceObject o' om) = releases o om
  /\ Destroyed (PhReferenceObject o' om) = Destroyed om.
Proof.
  intros Hne.
  unfold count_of, acquires, releases, PhReferenceObject; simpl.
  rewrite lookup_insert_ne by exact Hne. rewrite !filter_snoc; simpl.
  rewrite bool_decide_eq_false_2 by exact Hne.
  rewrite !app_nil_r. repeat split.
Qed.

Lemma dereference_same o om :
  count_of (PhDereferenceObject o om) o = Nat.pred (count_of om o)
  /\ acquires o (PhDereferenceObject o om) = acquires o om
  /\ releases o (PhDereferenceObject o om) = S (releases o om)
  /\ ((2 <= count_of om o)%nat ->
      Destroyed (PhDereferenceObject o om) = Destroyed om).
Proof.
  unfold PhDereferenceObject.
  destruct (count_of om o) as [|n] eqn:Hc;
    unfold count_of, acquires, releases in *; simpl.
  - rewrite !filter_snoc; simpl.
    rewrite bool_decide_eq_true_2 by reflexivity.
    rewrite Hc, !length_app; simpl. repeat split; try lia.
  - rewrite lookup_insert_eq, !filter_snoc; simpl.
    rewrite bool_decide_eq_true_2 by reflexivity.
    rewrite !length_app; simpl. repeat split; try lia.
    intros Hn. destruct n; [lia | reflexivity].
Qed.

Lemma dereference_other o o' om :
  o' <> o ->
  count_of (PhDereferenceObject o' om) o = count_of om o
  /\ acquires o (PhDereferenceObject o' om) = acquires o om
  /\ releases o (PhDereferenceObject o' om) = releases o om
  /\ (o ∈ Destroyed (PhDereferenceObject o' om) <-> o ∈ Destroyed om).
Proof.
  intros Hne. unfold PhDereferenceObject.
  destruct (count_of om o') as [|n] eqn:Hc;
    unfold count_of, acquires, releases in *; simpl.
  - rewrite !filter_snoc; simpl.
    rewrite bool_decide_eq_false_2 by exact Hne.
    rewrite !app_nil_r. repeat split; auto.
  - rewrite lookup_insert_ne by exact Hne. rewrite !filter_snoc; simpl.
    rewrite bool_decide_eq_false_2 by exact Hne.
    rewrite !app_nil_r. repeat split; auto.
    + destruct n; [|auto]. rewrite elem_of_app, list_elem_of_singleton.
      intros [H|H]; [exact H | congruence].
    + destruct n; [|auto]. intros H. apply elem_of_app. left. exact H.
Qed.

(** ** Effect of the callbacks and of the window procedure *)

Lemma Objects_PhMainWndOnServiceAdded RunId s st :
  Objects (PhMainWndOnServiceAdded RunId s st)
  = PhReferenceObject s (Objects st).
Proof.
  unfold PhMainWndOnServiceAdded, PhAddListViewItem.
  destruct (bool_decide (RunId = 1)); reflexivity.
Qed.

Lemma MessageQueue_PhMainWndOnServiceAdded RunId s st :
  MessageQueue (PhMainWndOnServiceAdded RunId s st) = MessageQueue st.
Proof.
  unfold PhMainWndOnServiceAdded, PhAddListViewItem.
  destruct (bool_decide (RunId = 1)); reflexivity.
Qed.

Lemma Objects_PhMainWndProc m st :
  Objects (PhMainWndProc m st) = message_refs m (Objects st).
Proof.
  destruct m; try reflexivity.
  cbn [PhMainWndProc with_objects Objects message_refs].
  rewrite Objects_PhMainWndOnServiceAdded. reflexivity.
Qed.

Lemma MessageQueue_PhMainWndProc m st :
  MessageQueue (PhMainWndProc m st) = MessageQueue st.
Proof.
  destruct m; try reflexivity.
  cbn [PhMainWndProc with_objects MessageQueue].
  apply MessageQueue_PhMainWndOnServiceAdded.
Qed.

Lemma pending_PostMessage o m st :
  pending o (PostMessage m st)
  = pending o st ++ (if refers o m then [m] else []).
Proof. unfold pending, PostMessage. simpl. apply filter_snoc. Qed.

Lemma refers_true o m : refers o m = true -> message_object m = Some o.
Proof. unfold refers. intros H. apply bool_decide_eq_true in H. exact H. Qed.

Lemma refers_false o m : refers o m = false -> message_object m <> Some o.
Proof. unfold refers. intros H. apply bool_decide_eq_false in H. exact H. Qed.

(** A message about another object leaves the counters of [o] alone. *)
Lemma message_refs_other o m om :
  refers o m = false ->
  count_of (message_refs m om) o = count_of om o
  /\ acquires o (message_refs m om) = acquires o om
  /\ releases o (message_refs m om) = releases o om
  /\ (o ∈ Destroyed (message_refs m om) <-> o ∈ Destroyed om).
Proof.
  intros Hr. apply refers_false in Hr.
  destruct m as [p|p|p|w s|d|s|]; simpl in *; try tauto.
  - assert (p <> o) as Hne by congruence.
    apply dereference_other. exact Hne.
  - assert (s <> o) as Hne by congruence.
    destruct (reference_other o s om Hne) as (Hc & Ha & Hl & Hd).
    destruct (dereference_other o s (PhReferenceObject s om) Hne)
      as (Hc' & Ha' & Hl' & Hd').
    rewrite Hc', Ha', Hl', Hd', Hd. tauto.
  - assert (s <> o) as Hne by congruence.
    apply dereference_other. exact Hne.
Qed.

(** An Added or Modified message about [o]: no net change. *)
Lemma message_refs_keep o m om :
  refers o m = true -> is_removed_message m = false ->
  (1 <= count_of om o)%nat ->
  count_of (message_refs m om) o = count_of om o
  /\ (acquires o (message_refs m om) + releases o om
      = acquires o om + releases o (message_refs m om))%nat
  /\ (acquires o om <= acquires o (message_refs m om))%nat
  /\ Destroyed (message_refs m om) = Destroyed om.
Proof.
  intros Hr Hk Hc. apply refers_true in Hr.
  destruct m as [p|p|p|w s|d|s|]; simpl in *; try discriminate;
    try (repeat split; lia).
  assert (s = o) as -> by congruence.
  destruct (reference_same o om) as (Hc1 & Ha1 & Hl1 & Hd1).
  destruct (dereference_same o (PhReferenceObject o om))
    as (Hc2 & Ha2 & Hl2 & Hd2).
  rewrite Hc2, Ha2, Hl2, Hc1, Ha1, Hl1, Hd2, Hd1 by lia.
  simpl. repeat split; lia.
Qed.

(** A Removed message about [o]: one release. *)
Lemma message_refs_removed o m om :
  refers o m = true -> is_removed_message m = true ->
  count_of (message_refs m om) o = Nat.pred (count_of om o)
  /\ acquires o (message_refs m om) = acquires o om
  /\ releases o (message_refs m om) = S (releases o om).
Proof.
  intros Hr Hk. apply refers_true in Hr.
  destruct m as [p|p|p|w s|d|s|]; simpl in *; try discriminate.
  - assert (p = o) as -> by congruence.
    destruct (dereference_same o om) as (H1 & H2 & H3 & _). auto.
  - assert (s = o) as -> by congruence.
    destruct (dereference_same o om) as (H1 & H2 & H3 & _). auto.
Qed.

(** ** The lifecycle invariant is preserved by every step *)

Lemma invoke_callback_effect e st :
  exists m,
    MessageQueue (invoke_callback e st) = MessageQueue st ++ [m]
    /\ message_object m = fst <$> event_about e
    /\ is_removed_message m
       = match event_about e with Some (_, KRemoved) => true | _ => false end
    /\ Objects (invoke_callback e st)
       = match event_about e with
         | Some (o', KAdded) => PhReferenceObject o' (Objects st)
         | _ => Objects st
         end.
Proof. destruct e; eexists; repeat split. Qed.

Lemma pending_snoc o q m :
  List.filter (refers o) (q ++ [m])
  = List.filter (refers o) q ++ (if refers o m then [m] else []).
Proof. apply filter_snoc. Qed.

Lemma no_removed_snoc q m :
  no_removed q -> is_removed_message m = false -> no_removed (q ++ [m]).
Proof. intros Hq Hm. apply Forall_app. split; [exact Hq|]. constructor; [exact Hm | constructor]. Qed.

Lemma inv_raise base o ph ph' e st :
  lifecycle_inv base o ph st ->
  next_phase o ph e = Some ph' ->
  lifecycle_inv base o ph' (invoke_callback e st).
Proof.
  unfold lifecycle_inv, pending. intros [Hbal Hph] Hnext.
  destruct (invoke_callback_effect e st) as (m & Hq & Hobj & Hrem & Hom).
  rewrite Hq, Hom, pending_snoc. clear Hq Hom.
  unfold next_phase in Hnext.
  destruct (event_about e) as [[o' k]|]; simpl in Hobj.
  - case_bool_decide as Heq.
    + subst o'.
      assert (refers o m = true) as ->
          by (unfold refers; rewrite bool_decide_eq_true_2; auto).
      destruct (reference_same o (Objects st)) as (Hc & Ha & Hl & Hd).
      destruct ph, k; try discriminate; injection Hnext as <-;
        unfold lifecycle_inv_on in *; try rewrite Hc, Ha, Hl, Hd.
      * destruct Hph as (-> & Hph & Hnd). simpl. split; [lia|].
        split; [|split; [lia | exact Hnd]].
        constructor; [exact Hrem | constructor].
      * destruct Hph as (Hnr & Hph & Hnd). split; [lia|].
        split; [|split; [lia | exact Hnd]].
        apply no_removed_snoc; assumption.
      * destruct Hph as (Hnr & Hph & Hnd). split; [lia|].
        left. eexists _, m. repeat split; eauto.
    + assert (refers o m = false) as ->
          by (unfold refers; rewrite bool_decide_eq_false_2; congruence).
      rewrite app_nil_r. injection Hnext as <-.
      assert (lifecycle_inv_on base o ph (PhReferenceObject o' (Objects st))
                (List.filter (refers o) (MessageQueue st))).
      { destruct (reference_other o o' (Objects st) Heq) as (Hc & Ha & Hl & Hd).
        unfold lifecycle_inv_on. rewrite Hc, Ha, Hl, Hd. split; assumption. }
      destruct k; [assumption | split; assumption | split; assumption].
  - assert (refers o m = false) as ->
        by (unfold refers; rewrite bool_decide_eq_false_2; congruence).
    rewrite app_nil_r. injection Hnext as <-. split; assumption.
Qed.

Lemma inv_dispatch base o ph st :
  lifecycle_inv base o ph st -> lifecycle_inv base o ph (DispatchMessage st).
Proof.
  unfold lifecycle_inv, pending, DispatchMessage.
  destruct (MessageQueue st) as [|m q] eqn:Hmq; [rewrite Hmq; auto|].
  rewrite Objects_PhMainWndProc, MessageQueue_PhMainWndProc.
  cbn [with_queue Objects MessageQueue List.filter].
  intros [Hbal Hph].
  destruct (refers o m) eqn:Hr.
  - (* the dispatched message is about o *)
    destruct (is_removed_message m) eqn:Hk.
    + destruct (message_refs_removed o m (Objects st) Hr Hk) as (Hc & Ha & Hl).
      unfold lifecycle_inv_on. rewrite Hc, Ha, Hl.
      destruct ph.
      * destruct Hph as (Hnil & _). discriminate.
      * destruct Hph as (Hnr & _). inversion Hnr; congruence.
      * destruct Hph as [(pre & r & Hpend & Hnr & Hrm & Hacq & Hnd)|(Hnil & _)];
          [|discriminate].
        destruct pre as [|m' pre'].
        -- simpl in Hpend. injection Hpend as _ Hq.
           split; [lia|]. right. split; [exact Hq | lia].
        -- simpl in Hpend. injection Hpend as <- Hq.
           inversion Hnr; congruence.
    + assert (1 <= count_of (Objects st) o)%nat as Hpos.
      { destruct ph.
        - destruct Hph as (Hnil & _). discriminate.
        - destruct Hph as (_ & Hacq & _). lia.
        - destruct Hph as [(pre & r & _ & _ & _ & Hacq & _)|(Hnil & _)];
            [lia | discriminate]. }
      destruct (message_refs_keep o m (Objects st) Hr Hk Hpos)
        as (Hc & Hd & Hle & Hdes).
      unfold lifecycle_inv_on. rewrite Hc, Hdes.
      split; [lia|].
      destruct ph.
      * destruct Hph as (Hnil & _). discriminate.
      * destruct Hph as (Hnr & Hacq & Hnd).
        split; [inversion Hnr; assumption|]. split; [lia | exact Hnd].
      * destruct Hph as [(pre & r & Hpend & Hnr & Hrm & Hacq & Hnd)|(Hnil & _)];
          [|discriminate].
        destruct pre as [|m' pre'].
        -- simpl in Hpend. injection Hpend as -> _. congruence.
        -- simpl in Hpend. injection Hpend as <- Hq.
           left. exists pre', r. inversion Hnr; subst.
           repeat split; auto. lia.
  - destruct (message_refs_other o m (Objects st) Hr) as (Hc & Ha & Hl & Hd).
    assert (o ∉ Destroyed (Objects st) ->
            o ∉ Destroyed (message_refs m (Objects st))) as Hd'
        by (intros H1 H2; apply H1, Hd, H2).
    unfold lifecycle_inv_on. rewrite Hc, Ha, Hl. split; [assumption|].
    destruct ph.
    + destruct Hph as (? & ? & ?). auto.
    + destruct Hph as (? & ? & ?). auto.
    + destruct Hph as [(pre & r & ? & ? & ? & ? & ?)|?];
        [left; exists pre, r; auto 10 | right; assumption].
Qed.

(** ** C1: reference counting over an entity's lifecycle *)

Lemma inv_run base o sch : forall ph ph' st,
  lifecycle_inv base o ph st ->
  lifecycle o ph sch = Some ph' ->
  lifecycle_inv base o ph' (run sch st).
Proof.
  induction sch as [|s sch IH]; intros ph ph' st Hinv Hlc; simpl in *.
  - injection Hlc as <-. exact Hinv.
  - destruct s as [e| |].
    + destruct (next_phase o ph e) as [ph1|] eqn:Hn; [|discriminate].
      apply (IH ph1); [|exact Hlc]. apply (inv_raise _ _ ph); assumption.
    + apply (IH ph); [|exact Hlc]. exact Hinv.
    + apply (IH ph); [|exact Hlc]. apply inv_dispatch. exact Hinv.
Qed.

Lemma inv_create counts m runId o :
  lifecycle_inv (default 0%nat (counts !! o)) o Unseen
    (PhMainWndOnCreate counts m runId).
Proof.
  unfold lifecycle_inv, lifecycle_inv_on, pending, acquires, releases, count_of.
  simpl. repeat split; auto. apply not_elem_of_nil.
Qed.

(** C1 (as amended).  Only the Added callbacks take a reference before
    posting; the Modified and Removed callbacks post the bare pointer.  For
    an entity whose events are raised in provider order (Added, then
    Modified any number of times, then Removed), under every interleaving
    of raising and dispatching: the count is the providers' count plus
    acquires minus releases; while a message about the entity is
    undispatched the window holds exactly one reference more than it has
    released, so the count is at least one and the object is not
    destroyed; once Removed has been dispatched, releases equal
    acquires. *)
Theorem added_reference_carries_the_lifecycle :
  forall (counts : gmap nat nat) (m : Memory) (runId : Z) (sch : list Step)
         (o : nat) (ph : Phase),
    lifecycle o Unseen sch = Some ph ->
    let st := run sch (PhMainWndOnCreate counts m runId) in
    let om := Objects st in
    (forall st' p,
        count_of (Objects (ProcessAddedHandler p st')) p = S (count_of (Objects st') p)
        /\ MessageQueue (ProcessAddedHandler p st') = MessageQueue st' ++ [WM_PH_PROCESS_ADDED p])
    /\ (forall st' s,
        count_of (Objects (ServiceAddedHandler s st')) s = S (count_of (Objects st') s)
        /\ MessageQueue (ServiceAddedHandler s st')
           = MessageQueue st' ++ [WM_PH_SERVICE_ADDED (ServiceProviderRunId st') s])
    /\ (forall st' p,
        Objects (ProcessModifiedHandler p st') = Objects st'
        /\ MessageQueue (ProcessModifiedHandler p st') = MessageQueue st' ++ [WM_PH_PROCESS_MODIFIED p])
    /\ (forall st' p,
        Objects (ProcessRemovedHandler p st') = Objects st'
        /\ MessageQueue (ProcessRemovedHandler p st') = MessageQueue st' ++ [WM_PH_PROCESS_REMOVED p])
    /\ (count_of om o + releases o om = default 0 (counts !! o) + acquires o om)%nat
    /\ (pending o st <> [] ->
        acquires o om = S (releases o om) /\ (1 <= count_of om o)%nat /\ o ∉ Destroyed om)
    /\ (ph = Retired -> pending o st = [] -> acquires o om = releases o om).
Proof.
  intros counts m runId sch o ph Hlc st om.
  split; [|split; [|split; [|split]]].
  - intros st' p. split; [|reflexivity]. apply reference_same.
  - intros st' s. split; [|reflexivity]. apply reference_same.
  - intros st' p. split; reflexivity.
  - intros st' p. split; reflexivity.
  - pose proof (inv_run _ o sch Unseen ph _ (inv_create counts m runId o) Hlc)
      as [Hbal Hph].
    fold st in Hbal, Hph. fold om in Hbal, Hph.
    split; [exact Hbal|]. split.
    + intros Hpend. destruct ph.
      * destruct Hph as (Hnil & _). contradiction.
      * destruct Hph as (_ & Hacq & Hnd). repeat split; [exact Hacq | lia | exact Hnd].
      * destruct Hph as [(pre & r & _ & _ & _ & Hacq & Hnd)|(Hnil & _)];
          [|contradiction].
        repeat split; [exact Hacq | lia | exact Hnd].
    + intros -> Hnil.
      destruct Hph as [(pre & r & Hpend & _)|(_ & Hacq)]; [|exact Hacq].
      rewrite Hnil in Hpend. destruct pre; discriminate.
Qed.

Lemma added_reference_carries_the_lifecycle_witness :
  lifecycle 7 Unseen example_schedule = Some Retired
  /\ acquires 7 (Objects (run example_schedule
                             (PhMainWndOnCreate {[ 7%nat := 1%nat ]} example_memory 1)))
     = releases 7 (Objects (run example_schedule
                              (PhMainWndOnCreate {[ 7%nat := 1%nat ]} example_memory 1))).
Proof.
  split; [reflexivity|].
  apply (added_reference_carries_the_lifecycle
           {[ 7%nat := 1%nat ]} example_memory 1 example_schedule 7%nat Retired);
    reflexivity.
Defined.

(** C1 (as stated) fails: with process item 7 displayed and counted twice
    (the provider's reference and the one taken by [ProcessAddedHandler]),
    [ProcessModifiedHandler] and [ProcessRemovedHandler] post their message
    and the count is still two: no call into the object manager is made. *)
Lemma modified_and_removed_post_without_reference :
  let st := run [Raise (PhProcessAddedEvent 7); Dispatch]
                (PhMainWndOnCreate {[ 7%nat := 1%nat ]} example_memory 1) in
  count_of (Objects st) 7 = 2%nat
  /\ (MessageQueue (ProcessModifiedHandler 7 st) = [WM_PH_PROCESS_MODIFIED 7%nat]
      /\ count_of (Objects (ProcessModifiedHandler 7 st)) 7 = 2%nat
      /\ Calls (Objects (ProcessModifiedHandler 7 st)) = Calls (Objects st))
  /\ (MessageQueue (ProcessRemovedHandler 7 st) = [WM_PH_PROCESS_REMOVED 7%nat]
      /\ count_of (Objects (ProcessRemovedHandler 7 st)) 7 = 2%nat
      /\ Calls (Objects (ProcessRemovedHandler 7 st)) = Calls (Objects st)).
Proof. vm_compute. repeat split. Qed.

(** ** Rows and nodes per key *)







(** ** C3: duplicate Added *)



(** ** C4: Modified for a missing item *)


Lemma with_tree_id st : with_tree (fun t => t) st = st.
Proof. destruct st; reflexivity. Qed.



(** ** C10: services present at startup *)








(** The same on a concrete window: a service added during run 1 shows up
    Normal, one added during run 2 shows up RecentlyAdded, and highlighting
    is on afterwards in both cases. *)
Example first_and_later_run_rows :
  let first := run [Raise (PhServiceAddedEvent 5); Dispatch]
                   (PhMainWndOnCreate ∅ example_memory 1) in
  let later := run [Raise (PhServiceAddedEvent 6); Dispatch]
                   (PhMainWndOnCreate ∅ example_memory 2) in
  map ItemState (Rows (ServiceListView first)) = [Normal]
  /\ StateHighlighting (ServiceListView first) = true
  /\ map ItemState (Rows (ServiceListView later)) = [New]
  /\ StateHighlighting (ServiceListView later) = true.
Proof. vm_compute. repeat split. Qed.

End MainWndTheory.

(** * Theorems about state highlighting *)

Module HighlightingTheory.
Import Highlighting.

(** ** Queue operations in closed form *)

Lemma release_head l held : release l (l :: held) = held.
Proof. simpl. rewrite bool_decide_eq_true_2; reflexivity. Qed.

Lemma Enqueue_eq m w : Enqueue m w = set_queue (_queue w ++ [m]) w.
Proof.
  destruct w. unfold Enqueue, lock, unlock, set_queue, set_Locked.
  cbn -[release]. rewrite release_head. reflexivity.
Qed.

Lemma EnqueuePost_eq m w :
  EnqueuePost m w = set_postQueuePending (_postQueuePending w ++ [m]) w.
Proof.
  destruct w. unfold EnqueuePost, lock, unlock, set_postQueuePending, set_Locked.
  cbn -[release]. rewrite release_head. reflexivity.
Qed.

Lemma foldl_Enqueue l : forall w,
  foldl (fun w m => Enqueue m w) w l = set_queue (_queue w ++ l) w.
Proof.
  induction l as [|m l IH]; intros w; simpl.
  - destruct w. unfold set_queue. simpl. rewrite app_nil_r. reflexivity.
  - rewrite IH, Enqueue_eq. destruct w. unfold set_queue. simpl.
    rewrite <- app_assoc. reflexivity.
Qed.

Lemma foldl_EnqueuePost l : forall w,
  foldl (fun w m => EnqueuePost m w) w l
  = set_postQueuePending (_postQueuePending w ++ l) w.
Proof.
  induction l as [|m l IH]; intros w; simpl.
  - destruct w. unfold set_postQueuePending. simpl. rewrite app_nil_r. reflexivity.
  - rewrite IH, EnqueuePost_eq. destruct w. unfold set_postQueuePending. simpl.
    rewrite <- app_assoc. reflexivity.
Qed.

Lemma same_host_refl w : same_host w w.
Proof. repeat split. Qed.

Lemma same_host_trans w1 w2 w3 :
  same_host w1 w2 -> same_host w2 w3 -> same_host w1 w3.
Proof. unfold same_host. intuition congruence. Qed.

Lemma update_item_fields this f w :
  same_host w (update_item this f w)
  /\ _queue (update_item this f w) = _queue w
  /\ _postQueue (update_item this f w) = _postQueue w
  /\ _postQueuePending (update_item this f w) = _postQueuePending w
  /\ Executed (update_item this f w) = Executed w
  /\ ListItems (update_item this f w) = ListItems w.
Proof.
  unfold update_item. destruct (Heap w !! this); repeat split.
Qed.

Lemma Invoke_fields m w :
  same_host w (Invoke m w)
  /\ _queue (Invoke m w) = _queue w ++ enqueues m
  /\ _postQueue (Invoke m w) = _postQueue w
  /\ _postQueuePending (Invoke m w) = _postQueuePending w ++ requests m
  /\ Executed (Invoke m w) = Executed w ++ [(m, Locked w)].
Proof.
  unfold Invoke.
  destruct m as [this|this|this|id enq post]; cbn [body enqueues requests].
  - destruct (update_item_fields this
                (fun it => paint (_normalColor it) (Some Normal) it)
                (set_Executed (Executed w ++ [(RestoreNormal this, Locked w)]) w))
      as (H1 & H2 & H3 & H4 & H5 & _).
    rewrite H2, H3, H4, H5, !app_nil_r. repeat split; apply H1.
  - rewrite EnqueuePost_eq.
    destruct (update_item_fields this (paint (Colors Removed) None)
                (set_Executed (Executed w ++ [(ShowRemoved this, Locked w)]) w))
      as (H1 & H2 & H3 & H4 & H5 & _).
    cbn [set_postQueuePending _queue _postQueue _postQueuePending Executed].
    rewrite H2, H3, H4, H5, !app_nil_r. repeat split; apply H1.
  - rewrite !app_nil_r. repeat split.
  - rewrite foldl_EnqueuePost, foldl_Enqueue. repeat split.
Qed.

Lemma weight_enqueues m : weight m = S (queue_weight (enqueues m)).
Proof.
  destruct m as [this|this|this|id enq post]; reflexivity.
Qed.

Lemma queue_weight_app q1 q2 :
  queue_weight (q1 ++ q2) = (queue_weight q1 + queue_weight q2)%nat.
Proof. induction q1 as [|m q1 IH]; simpl; [reflexivity | rewrite IH; lia]. Qed.

Lemma set_queue_fields q w :
  same_host w (set_queue q w)
  /\ _queue (set_queue q w) = q
  /\ _postQueue (set_queue q w) = _postQueue w
  /\ _postQueuePending (set_queue q w) = _postQueuePending w
  /\ Executed (set_queue q w) = Executed w.
Proof. repeat split. Qed.

(** The immediate loop terminates with an empty queue; it has run the
    delegates queued at its start and those they enqueued, in order, each
    with the monitors held on entry. *)
Lemma drain_queue_spec fuel : forall w,
  (queue_weight (_queue w) <= fuel)%nat ->
  exists ms rest,
    ms = _queue w ++ rest
    /\ _queue (drain_queue fuel w) = []
    /\ same_host w (drain_queue fuel w)
    /\ _postQueue (drain_queue fuel w) = _postQueue w
    /\ Executed (drain_queue fuel w)
       = Executed w ++ map (fun m => (m, Locked w)) ms
    /\ _postQueuePending (drain_queue fuel w)
       = _postQueuePending w ++ flat_map requests ms.
Proof.
  induction fuel as [|fuel IH]; intros w Hw.
  - destruct (_queue w) as [|m q] eqn:Hq.
    + exists [], []. simpl. rewrite Hq, !app_nil_r.
      repeat split.
    + simpl in Hw. rewrite weight_enqueues in Hw. lia.
  - cbn [drain_queue]. destruct (_queue w) as [|m q] eqn:Hq.
    + exists [], []. simpl. rewrite Hq, !app_nil_r. repeat split.
    + destruct (Invoke_fields m (set_queue q w)) as (Hh & Hq1 & Hp1 & Hpp1 & He1).
      cbn [set_queue _queue _postQueue _postQueuePending Executed Locked] in Hq1, Hp1, Hpp1, He1.
      destruct (IH (Invoke m (set_queue q w))) as (ms & rest & Hms & H1 & H2 & H3 & H4 & H5).
      { rewrite Hq1, queue_weight_app. simpl in Hw.
        rewrite weight_enqueues in Hw. lia. }
      exists (m :: ms), (enqueues m ++ rest).
      assert (Locked (Invoke m (set_queue q w)) = Locked w) as HL by apply Hh.
      split; [rewrite Hms, Hq1, <- app_assoc; reflexivity|].
      split; [exact H1|].
      split; [eapply same_host_trans; [|exact H2];
              eapply same_host_trans; [|exact Hh]; apply set_queue_fields|].
      split; [rewrite H3; exact Hp1|].
      split.
      * rewrite H4, He1, HL, <- app_assoc. reflexivity.
      * rewrite H5, Hpp1, <- app_assoc. reflexivity.
Qed.

Lemma set_postQueue_fields q w :
  same_host w (set_postQueue q w)
  /\ _queue (set_postQueue q w) = _queue w
  /\ _postQueue (set_postQueue q w) = q
  /\ _postQueuePending (set_postQueue q w) = _postQueuePending w
  /\ Executed (set_postQueue q w) = Executed w.
Proof. repeat split. Qed.

(** The delayed loop runs exactly the delegates that are in the delayed
    queue at its start; what they request goes to the pending buffer. *)
Lemma drain_postQueue_spec fuel : forall w,
  (length (_postQueue w) <= fuel)%nat ->
  _postQueue (drain_postQueue fuel w) = []
  /\ same_host w (drain_postQueue fuel w)
  /\ _queue (drain_postQueue fuel w)
     = _queue w ++ flat_map enqueues (_postQueue w)
  /\ Executed (drain_postQueue fuel w)
     = Executed w ++ map (fun m => (m, Locked w)) (_postQueue w)
  /\ _postQueuePending (drain_postQueue fuel w)
     = _postQueuePending w ++ flat_map requests (_postQueue w).
Proof.
  induction fuel as [|fuel IH]; intros w Hw.
  - destruct (_postQueue w) as [|m q] eqn:Hq; [|simpl in Hw; lia].
    simpl. rewrite Hq, !app_nil_r. repeat split.
  - cbn [drain_postQueue]. destruct (_postQueue w) as [|m q] eqn:Hq.
    + simpl. rewrite Hq, !app_nil_r. repeat split.
    + destruct (Invoke_fields m (set_postQueue q w)) as (Hh & Hq1 & Hp1 & Hpp1 & He1).
      cbn [set_postQueue _queue _postQueue _postQueuePending Executed Locked]
        in Hq1, Hp1, Hpp1, He1.
      destruct (IH (Invoke m (set_postQueue q w))) as (H1 & H2 & H3 & H4 & H5).
      { rewrite Hp1. simpl in Hw. lia. }
      assert (Locked (Invoke m (set_postQueue q w)) = Locked w) as HL by apply Hh.
      split; [exact H1|].
      split; [eapply same_host_trans; [|exact H2];
              eapply same_host_trans; [|exact Hh]; apply set_postQueue_fields|].
      split; [rewrite H3, Hq1, Hp1, <- app_assoc; reflexivity|].
      split.
      * rewrite H4, He1, HL, Hp1, <- app_assoc. reflexivity.
      * rewrite H5, Hpp1, Hp1, <- app_assoc. reflexivity.
Qed.

Lemma transfer_pending_eq fuel : forall w,
  (length (_postQueuePending w) <= fuel)%nat ->
  transfer_pending fuel w
  = set_postQueue (_postQueue w ++ _postQueuePending w)
      (set_postQueuePending [] w).
Proof.
  induction fuel as [|fuel IH]; intros w Hw.
  - destruct w as [? ? ? ? ? ? ? ? ? ? pend ? ? ?]. simpl in *.
    destruct pend; [|simpl in Hw; lia].
    unfold set_postQueue, set_postQueuePending. simpl. rewrite app_nil_r. reflexivity.
  - destruct w as [? ? ? ? ? ? ? ? ? ? pend ? ? ?]. simpl in *.
    destruct pend as [|m q].
    + unfold set_postQueue, set_postQueuePending. simpl. rewrite app_nil_r. reflexivity.
    + rewrite IH by (simpl in *; lia).
      unfold set_postQueue, set_postQueuePending. simpl.
      rewrite <- app_assoc. reflexivity.
Qed.

(** ** The two posted delegates *)

Lemma TimerBatch_execute_spec w :
  same_host w (TimerBatch_execute w)
  /\ _postQueue (TimerBatch_execute w) = []
  /\ _queue (TimerBatch_execute w) = _queue w ++ flat_map enqueues (_postQueue w)
  /\ Executed (TimerBatch_execute w)
     = Executed w ++ map (fun m => (m, Lock_postQueue :: Locked w)) (_postQueue w)
  /\ _postQueuePending (TimerBatch_execute w)
     = _postQueuePending w ++ flat_map requests (_postQueue w).
Proof.
  unfold TimerBatch_execute, run_postQueue.
  set (w2 := lock Lock_postQueue (BeginUpdate w)).
  destruct (drain_postQueue_spec (length (_postQueue w2)) w2 (le_n _))
    as (H1 & Hh & H3 & H4 & H5).
  destruct Hh as (h1 & h2 & h3 & h4 & h5 & h6 & h7 & h8).
  cbn [w2 lock BeginUpdate set_Locked set_UpdateDepth Now _highlightingDuration
       _stateHighlighting IsHandleCreated UpdateDepth InvokeQueue Timers Locked
       _queue _postQueue _postQueuePending Executed] in *.
  unfold same_host, EndUpdate, unlock.
  cbn [set_Locked set_UpdateDepth Now _highlightingDuration
       _stateHighlighting IsHandleCreated UpdateDepth InvokeQueue Timers Locked
       _queue _postQueue _postQueuePending Executed].
  rewrite h5, h8, release_head. repeat split; assumption.
Qed.

Lemma TimerBatch_requeue_spec w :
  same_host w (TimerBatch_requeue w)
  /\ _postQueue (TimerBatch_requeue w) = _postQueue w ++ _postQueuePending w
  /\ _postQueuePending (TimerBatch_requeue w) = []
  /\ _queue (TimerBatch_requeue w) = _queue w
  /\ Executed (TimerBatch_requeue w) = Executed w
  /\ Heap (TimerBatch_requeue w) = Heap w
  /\ ListItems (TimerBatch_requeue w) = ListItems w.
Proof.
  unfold TimerBatch_requeue, run_transfer.
  rewrite transfer_pending_eq by reflexivity.
  unfold same_host, unlock, lock.
  cbn [set_Locked set_postQueue set_postQueuePending Now _highlightingDuration
       _stateHighlighting IsHandleCreated UpdateDepth InvokeQueue Timers Locked
       _queue _postQueue _postQueuePending Executed Heap ListItems].
  rewrite release_head. cbn [release].
  rewrite bool_decide_eq_true_2 by reflexivity.
  repeat split.
Qed.

Lemma TimerBatch_body_spec w :
  same_host w (TimerBatch_body w)
  /\ _postQueue (TimerBatch_body w)
     = _postQueuePending w ++ flat_map requests (_postQueue w)
  /\ _postQueuePending (TimerBatch_body w) = []
  /\ _queue (TimerBatch_body w) = _queue w ++ flat_map enqueues (_postQueue w)
  /\ Executed (TimerBatch_body w)
     = Executed w ++ map (fun m => (m, Lock_postQueue :: Locked w)) (_postQueue w).
Proof.
  unfold TimerBatch_body.
  destruct (TimerBatch_execute_spec w) as (Hh & H1 & H2 & H3 & H4).
  destruct (TimerBatch_requeue_spec (TimerBatch_execute w))
    as (Hh' & G1 & G2 & G3 & G4 & _).
  split; [eapply same_host_trans; eassumption|].
  rewrite G1, G2, G3, G4, H1, H2, H3, H4. repeat split.
Qed.

Lemma TickBatch_body_spec w :
  exists ms rest,
    ms = _queue w ++ rest
    /\ _queue (TickBatch_body w) = []
    /\ _postQueue (TickBatch_body w) = _postQueue w
    /\ _postQueuePending (TickBatch_body w)
       = _postQueuePending w ++ flat_map requests ms
    /\ Executed (TickBatch_body w)
       = Executed w ++ map (fun m => (m, Lock_queue :: Locked w)) ms
    /\ Locked (TickBatch_body w) = Locked w
    /\ IsHandleCreated (TickBatch_body w) = IsHandleCreated w
    /\ InvokeQueue (TickBatch_body w) = InvokeQueue w
    /\ _highlightingDuration (TickBatch_body w) = _highlightingDuration w
    /\ _stateHighlighting (TickBatch_body w) = _stateHighlighting w
    /\ Now (TickBatch_body w) = Now w
    /\ Timers (TickBatch_body w)
       = Timers (new_Timer (_highlightingDuration w) w).
Proof.
  unfold TickBatch_body, run_queue.
  set (w2 := lock Lock_queue (BeginUpdate w)).
  destruct (drain_queue_spec (queue_weight (_queue w2)) w2 (le_n _))
    as (ms & rest & Hms & H1 & Hh & H3 & H4 & H5).
  destruct Hh as (h1 & h2 & h3 & h4 & h5 & h6 & h7 & h8).
  exists ms, rest.
  cbn [w2 lock BeginUpdate set_Locked set_UpdateDepth Now _highlightingDuration
       _stateHighlighting IsHandleCreated UpdateDepth InvokeQueue Timers Locked
       _queue _postQueue _postQueuePending Executed] in *.
  unfold new_Timer, EndUpdate, unlock.
  cbn [set_Locked set_UpdateDepth Now _highlightingDuration
       _stateHighlighting IsHandleCreated UpdateDepth InvokeQueue Timers Locked
       _queue _postQueue _postQueuePending Executed].
  rewrite h2, h1, h8, release_head.
  repeat case_bool_decide;
    cbn [set_Timers set_Locked set_UpdateDepth Now _highlightingDuration
       _stateHighlighting IsHandleCreated UpdateDepth InvokeQueue Timers Locked
       _queue _postQueue _postQueuePending Executed];
    rewrite ?h7; repeat split; assumption.
Qed.

(** ** C2: when the decay is applied *)

Lemma state_of_update_item this that f w :
  state_of this (update_item that f w)
  = if bool_decide (that = this)
    then _state <$> (f <$> Heap w !! this)
    else state_of this w.
Proof.
  unfold state_of, update_item.
  case_bool_decide as Heq.
  - subst that. destruct (Heap w !! this) as [it|] eqn:Hit.
    + unfold store. cbn [set_Heap Heap]. rewrite lookup_insert_eq. reflexivity.
    + rewrite Hit. reflexivity.
  - destruct (Heap w !! that) as [it|]; [|reflexivity].
    unfold store. cbn [set_Heap Heap]. rewrite lookup_insert_ne by exact Heq.
    reflexivity.
Qed.

Lemma Heap_foldl_Enqueue l w :
  Heap (foldl (fun w m => Enqueue m w) w l) = Heap w.
Proof. rewrite foldl_Enqueue. reflexivity. Qed.

Lemma Heap_foldl_EnqueuePost l w :
  Heap (foldl (fun w m => EnqueuePost m w) w l) = Heap w.
Proof. rewrite foldl_EnqueuePost. reflexivity. Qed.

Lemma restores_true this m : restores this m = true -> m = RestoreNormal this.
Proof.
  destruct m; try discriminate. simpl. intros H.
  apply bool_decide_eq_true in H. congruence.
Qed.

(** Invoking a delegate changes the state of an item only if the delegate
    is the item's [RestoreNormal], and then the state is Normal. *)
Lemma state_of_Invoke this m w :
  state_of this (Invoke m w)
  = if restores this m
    then (fun _ => Normal) <$> state_of this w
    else state_of this w.
Proof.
  unfold Invoke.
  destruct m as [that|that|that|id enq post]; cbn [body restores].
  - rewrite state_of_update_item.
    destruct (bool_decide (that = this)); [|reflexivity].
    unfold state_of. cbn [set_Executed Heap].
    destruct (Heap w !! this); reflexivity.
  - rewrite EnqueuePost_eq. unfold state_of at 1. cbn [set_postQueuePending Heap].
    fold (state_of this (update_item that (paint (Colors Removed) None)
            (set_Executed (Executed w ++ [(ShowRemoved that, Locked w)]) w))).
    rewrite state_of_update_item. case_bool_decide; [|reflexivity].
    unfold state_of. cbn [set_Executed Heap].
    destruct (Heap w !! this); reflexivity.
  - reflexivity.
  - unfold state_of. rewrite Heap_foldl_EnqueuePost, Heap_foldl_Enqueue. reflexivity.
Qed.

Lemma state_of_drain_postQueue_untouched this fuel : forall w,
  RestoreNormal this ∉ _postQueue w ->
  state_of this (drain_postQueue fuel w) = state_of this w.
Proof.
  induction fuel as [|fuel IH]; intros w Hnot; [reflexivity|].
  cbn [drain_postQueue]. destruct (_postQueue w) as [|m q] eqn:Hq; [reflexivity|].
  rewrite IH.
  - rewrite state_of_Invoke. destruct (restores this m) eqn:Hr; [|reflexivity].
    apply restores_true in Hr. subst m. exfalso. apply Hnot. left.
  - destruct (Invoke_fields m (set_postQueue q w)) as (_ & _ & Hp & _).
    rewrite Hp. cbn [set_postQueue _postQueue].
    intros Hin. apply Hnot. right. exact Hin.
Qed.

Lemma state_of_drain_postQueue_normal this fuel : forall w,
  state_of this w = Some Normal ->
  state_of this (drain_postQueue fuel w) = Some Normal.
Proof.
  induction fuel as [|fuel IH]; intros w Hn; [exact Hn|].
  cbn [drain_postQueue]. destruct (_postQueue w) as [|m q] eqn:Hq; [exact Hn|].
  apply IH. rewrite state_of_Invoke.
  change (state_of this (set_postQueue q w)) with (state_of this w).
  rewrite Hn. destruct (restores this m); reflexivity.
Qed.

Lemma state_of_drain_postQueue_restored this fuel : forall w,
  (length (_postQueue w) <= fuel)%nat ->
  RestoreNormal this ∈ _postQueue w ->
  is_Some (state_of this w) ->
  state_of this (drain_postQueue fuel w) = Some Normal.
Proof.
  induction fuel as [|fuel IH]; intros w Hlen Hin Hsome.
  - destruct (_postQueue w); [inversion Hin | simpl in Hlen; lia].
  - cbn [drain_postQueue]. destruct (_postQueue w) as [|m q] eqn:Hq;
      [inversion Hin|].
    destruct (Invoke_fields m (set_postQueue q w)) as (_ & _ & Hp & _).
    cbn [set_postQueue _postQueue] in Hp.
    pose proof (state_of_Invoke this m (set_postQueue q w)) as Hst.
    change (state_of this (set_postQueue q w)) with (state_of this w) in Hst.
    destruct Hsome as [s Hs].
    apply elem_of_cons in Hin as [<-|Hin].
    + apply state_of_drain_postQueue_normal.
      rewrite Hst, Hs. cbn [restores].
      rewrite bool_decide_eq_true_2 by reflexivity. reflexivity.
    + apply IH.
      * rewrite Hp. simpl in Hlen. lia.
      * rewrite Hp. exact Hin.
      * rewrite Hst, Hs. destruct (restores this m); eexists; reflexivity.
Qed.

Lemma state_of_Sleep this ms w : state_of this (Sleep ms w) = state_of this w.
Proof. reflexivity. Qed.

Lemma state_of_TimerBatch_requeue this w :
  state_of this (TimerBatch_requeue w) = state_of this w.
Proof.
  unfold state_of.
  destruct (TimerBatch_requeue_spec w) as (_ & _ & _ & _ & _ & H & _).
  rewrite H. reflexivity.
Qed.

Lemma lock_BeginUpdate_postQueue l w :
  _postQueue (lock l (BeginUpdate w)) = _postQueue w.
Proof. reflexivity. Qed.

Lemma state_of_lock_BeginUpdate this l w :
  state_of this (lock l (BeginUpdate w)) = state_of this w.
Proof. reflexivity. Qed.

Lemma state_of_unlock_EndUpdate this l w :
  state_of this (EndUpdate (unlock l w)) = state_of this w.
Proof. reflexivity. Qed.

(** A delayed batch leaves an item alone when the delayed queue does not
    hold the item's decay action. *)
Lemma TimerBatch_body_untouched this w :
  RestoreNormal this ∉ _postQueue w ->
  state_of this (TimerBatch_body w) = state_of this w.
Proof.
  intros Hnot. unfold TimerBatch_body.
  rewrite state_of_TimerBatch_requeue.
  unfold TimerBatch_execute. rewrite state_of_unlock_EndUpdate.
  unfold run_postQueue. rewrite state_of_drain_postQueue_untouched.
  - apply state_of_lock_BeginUpdate.
  - rewrite lock_BeginUpdate_postQueue. exact Hnot.
Qed.

(** A delayed batch whose delayed queue holds the item's decay action
    leaves the item Normal. *)
Lemma TimerBatch_body_restores this w :
  RestoreNormal this ∈ _postQueue w ->
  is_Some (state_of this w) ->
  state_of this (TimerBatch_body w) = Some Normal.
Proof.
  intros Hin Hsome. unfold TimerBatch_body.
  rewrite state_of_TimerBatch_requeue.
  unfold TimerBatch_execute. rewrite state_of_unlock_EndUpdate.
  unfold run_postQueue. apply state_of_drain_postQueue_restored.
  - reflexivity.
  - rewrite lock_BeginUpdate_postQueue. exact Hin.
  - rewrite state_of_lock_BeginUpdate. exact Hsome.
Qed.

Lemma not_restored this q :
  existsb (restores this) q = false -> RestoreNormal this ∉ q.
Proof.
  intros Hq Hin. apply list_elem_of_In in Hin.
  assert (existsb (restores this) q = true) as Ht.
  { apply existsb_exists. exists (RestoreNormal this). split; [exact Hin|].
    simpl. apply bool_decide_eq_true_2. reflexivity. }
  congruence.
Qed.

(** The constructor with highlighting on, in closed form. *)
Lemma ctor_highlighted this text w :
  _stateHighlighting w = true ->
  HighlightedListViewItem_ctor this text true w
  = set_postQueuePending (_postQueuePending w ++ [RestoreNormal this])
      (store this
         (paint (Colors New) (Some New)
            {| ItemText := text;
               BackColor := SystemColors_Window;
               ForeColor := SystemColors_WindowText;
               _normalColor := SystemColors_Window;
               _state := Normal |}) w).
Proof.
  intros Hon. unfold HighlightedListViewItem_ctor. rewrite Hon. cbn [andb].
  rewrite EnqueuePost_eq. reflexivity.
Qed.

Lemma ctor_highlighted_fields this text w :
  _stateHighlighting w = true ->
  state_of this (HighlightedListViewItem_ctor this text true w) = Some New
  /\ _postQueue (HighlightedListViewItem_ctor this text true w) = _postQueue w
  /\ _postQueuePending (HighlightedListViewItem_ctor this text true w)
     = _postQueuePending w ++ [RestoreNormal this].
Proof.
  intros Hon. rewrite ctor_highlighted by exact Hon.
  split; [|split; reflexivity].
  unfold state_of, store. cbn [set_postQueuePending set_Heap Heap].
  rewrite lookup_insert_eq. reflexivity.
Qed.

(** C2 (as amended).  With highlighting on, a new item is RecentlyAdded and
    its decay action is put in the pending buffer, not in the delayed
    queue.  The first delayed batch after the creation does not apply it:
    the item is still RecentlyAdded afterwards and the decay action has
    only moved to the delayed queue.  The second delayed batch applies it
    and the item is Normal.  Elapsed time alone changes nothing. *)
Theorem decay_waits_for_the_second_delayed_batch :
  forall (w : World) (this : nat) (text : string) (ms : Z),
    _stateHighlighting w = true ->
    existsb (restores this) (_postQueue w) = false ->
    let w1 := HighlightedListViewItem_ctor this text true w in
    let w2 := TimerBatch_body w1 in
    let w3 := TimerBatch_body w2 in
    state_of this w1 = Some New
    /\ _postQueue w1 = _postQueue w
    /\ _postQueuePending w1 = _postQueuePending w ++ [RestoreNormal this]
    /\ state_of this (Sleep ms w1) = Some New
    /\ state_of this w2 = Some New
    /\ _postQueue w2
       = _postQueuePending w ++ [RestoreNormal this]
         ++ flat_map requests (_postQueue w)
    /\ state_of this (Sleep ms w2) = Some New
    /\ state_of this w3 = Some Normal.
Proof.
  intros w this text ms Hon Hfresh. cbv zeta.
  assert (RestoreNormal this ∉ _postQueue w) as Hnot
      by (apply not_restored; exact Hfresh).
  destruct (ctor_highlighted_fields this text w Hon) as (Hs1 & Hp1 & Hpp1).
  generalize dependent (HighlightedListViewItem_ctor this text true w).
  intros w1 Hs1 Hp1 Hpp1.
  assert (state_of this (TimerBatch_body w1) = Some New) as Hs2.
  { rewrite TimerBatch_body_untouched; [exact Hs1|]. rewrite Hp1. exact Hnot. }
  destruct (TimerBatch_body_spec w1) as (_ & Hp2 & _).
  rewrite Hpp1, Hp1, <- app_assoc in Hp2.
  generalize dependent (TimerBatch_body w1).
  intros w2 Hs2 Hp2.
  split; [exact Hs1|]. split; [exact Hp1|]. split; [exact Hpp1|].
  split; [rewrite state_of_Sleep; exact Hs1|].
  split; [exact Hs2|]. split; [exact Hp2|].
  split; [rewrite state_of_Sleep; exact Hs2|].
  apply TimerBatch_body_restores.
  - rewrite Hp2. rewrite !elem_of_app. right. left.
    apply list_elem_of_singleton. reflexivity.
  - rewrite Hs2. eexists; reflexivity.
Qed.

Lemma decay_waits_for_the_second_delayed_batch_witness :
  (_stateHighlighting in_flight = true
   /\ existsb (restores 1) (_postQueue in_flight) = false)
  /\ _postQueue in_flight = [RestoreNormal 2; BaseRemove 2]
  /\ state_of 1 (TimerBatch_body
                   (HighlightedListViewItem_ctor 1 "svchost.exe" true in_flight))
     = Some New
  /\ state_of 1 (TimerBatch_body (TimerBatch_body
                   (HighlightedListViewItem_ctor 1 "svchost.exe" true in_flight)))
     = Some Normal.
Proof.
  assert (_stateHighlighting in_flight = true) as Hon
      by (vm_compute; reflexivity).
  assert (existsb (restores 1) (_postQueue in_flight) = false) as Hfresh
      by (vm_compute; reflexivity).
  destruct (decay_waits_for_the_second_delayed_batch
              in_flight 1%nat "svchost.exe" 0 Hon Hfresh)
    as (_ & _ & _ & _ & H2 & _ & _ & H3).
  split; [split; [exact Hon | exact Hfresh]|].
  split; [vm_compute; reflexivity|].
  split; [exact H2 | exact H3].
Defined.

(** C2 (as stated) fails: the item is created at time 0 with duration
    1000; Tick is called and its batch runs, the timer fires at 1000 and
    the delayed batch runs.  That first timer cycle invokes nothing, and
    at time 6000 the item is still RecentlyAdded. *)
Lemma first_timer_cycle_leaves_item_highlighted :
  let w := play [OpNew 1 "svchost.exe" true; OpAdd 1;
                 OpTick; OpPump;
                 OpSleep 1000; OpTimer 0; OpPump;
                 OpSleep 5000] startup in
  state_of 1 (play [OpNew 1 "svchost.exe" true] startup) = Some New
  /\ Now w = 6000
  /\ Timers w = []
  /\ InvokeQueue w = []
  /\ Executed w = []
  /\ _postQueue w = [RestoreNormal 1]
  /\ state_of 1 w = Some New.
Proof. vm_compute. repeat split. Qed.

(** ** C5: timers *)







(** ** C6: requests made during a delayed batch *)

(** C6.  A delayed batch runs exactly the delegates that are in the
    delayed queue when it starts.  Every delayed action requested while
    the batch executes is in the pending buffer, and not in the delayed
    queue, when the batch completes; the re-enqueueing that follows moves
    the whole pending buffer, in order, to the delayed queue; and the batch
    of the next timer cycle runs exactly those delegates. *)
Theorem requests_during_delayed_batch_wait_for_next_cycle :
  forall (w : World),
    let requested := flat_map requests (_postQueue w) in
    let w1 := TimerBatch_execute w in
    let w2 := TimerBatch_requeue w1 in
    let w3 := TimerBatch_execute w2 in
    TimerBatch_body w = w2
    /\ Executed w1
       = Executed w ++ map (fun m => (m, Lock_postQueue :: Locked w)) (_postQueue w)
    /\ _postQueue w1 = []
    /\ _postQueuePending w1 = _postQueuePending w ++ requested
    /\ _postQueue w2 = _postQueuePending w ++ requested
    /\ _postQueuePending w2 = []
    /\ Executed w2 = Executed w1
    /\ Executed w3
       = Executed w2
         ++ map (fun m => (m, Lock_postQueue :: Locked w))
                (_postQueuePending w ++ requested).
Proof.
  intros w requested w1 w2 w3.
  destruct (TimerBatch_execute_spec w) as (Hh & H1 & H2 & H3 & H4).
  destruct (TimerBatch_requeue_spec w1) as (Hh' & G1 & G2 & G3 & G4 & _).
  destruct (TimerBatch_execute_spec w2) as (_ & _ & _ & K3 & _).
  fold w1 in Hh, H1, H2, H3, H4. fold w2 in Hh', G1, G2, G3, G4. fold w3 in K3.
  assert (Locked w2 = Locked w) as HL.
  { destruct Hh as (_&_&_&_&_&_&_&a). destruct Hh' as (_&_&_&_&_&_&_&b). congruence. }
  split; [reflexivity|].
  split; [exact H3|]. split; [exact H1|]. split; [exact H4|].
  split; [rewrite G1, H1, H4; reflexivity|].
  split; [exact G2|]. split; [exact G4|].
  rewrite K3, HL, G1, H1, H4. reflexivity.
Qed.

(** A client delegate in the delayed queue requests the decay of item 3
    while the batch runs: the batch invokes the client delegate only, and
    the batch of the next cycle invokes the requested decay. *)
Example request_made_during_batch :
  let w := play [OpEnqueuePost (Callback 0 [] [RestoreNormal 3])] startup in
  let w1 := TimerBatch_body w in
  let w2 := TimerBatch_body w1 in
  let w3 := TimerBatch_body w2 in
  map fst (Executed w1) = []
  /\ map fst (Executed w2) = [Callback 0 [] [RestoreNormal 3]]
  /\ _postQueue w2 = [RestoreNormal 3]
  /\ map fst (Executed w3) = [Callback 0 [] [RestoreNormal 3]; RestoreNormal 3].
Proof. vm_compute. repeat split. Qed.

(** ** C7: highlighting switched off *)



(** ** C8: the handle is gone *)

(** C8.  Once the list's handle is gone, nothing scheduled runs: Tick
    returns without posting, a timer that fires posts nothing and is only
    disposed, and a delegate posted earlier is dropped from the list's
    queue; in each case no delegate is invoked. *)
Theorem no_batch_after_handle_destroyed :
  forall (w : World) (k : nat),
    IsHandleCreated w = false ->
    Tick w = w
    /\ (TimerCallback k w = w
        \/ TimerCallback k w = set_Timers (delete k (Timers w)) w)
    /\ Pump w = set_InvokeQueue (tail (InvokeQueue w)) w
    /\ Executed (Tick w) = Executed w
    /\ Executed (TimerCallback k w) = Executed w
    /\ InvokeQueue (TimerCallback k w) = InvokeQueue w
    /\ Executed (Pump w) = Executed w.
Proof.
  intros w k Hh.
  assert (Tick w = w) as HT by (unfold Tick; rewrite Hh; reflexivity).
  assert (TimerCallback k w = w
          \/ TimerCallback k w = set_Timers (delete k (Timers w)) w) as HC.
  { unfold TimerCallback. destruct (Timers w !! k) as [[due|]|]; auto.
    case_bool_decide; auto. rewrite Hh. auto. }
  assert (Pump w = set_InvokeQueue (tail (InvokeQueue w)) w) as HP.
  { unfold Pump. destruct (InvokeQueue w) as [|d q] eqn:Hq.
    - destruct w. cbn in *. subst. reflexivity.
    - cbn [set_InvokeQueue IsHandleCreated tail]. rewrite Hh. reflexivity. }
  split; [exact HT|]. split; [exact HC|]. split; [exact HP|].
  rewrite HT, HP. split; [reflexivity|].
  destruct HC as [-> | ->]; repeat split.
Qed.

Lemma no_batch_after_handle_destroyed_witness :
  IsHandleCreated torn_down = false
  /\ Tick torn_down = torn_down
  /\ Executed (play [OpTimer 0; OpPump; OpPump] torn_down) = Executed torn_down.
Proof.
  assert (IsHandleCreated torn_down = false) as Hgone
      by (vm_compute; reflexivity).
  destruct (no_batch_after_handle_destroyed torn_down 0 Hgone) as (HT & _).
  split; [exact Hgone|].
  split; [exact HT|].
  vm_compute. reflexivity.
Defined.

(** ** C9: monitors *)

(** C9 (as amended).  [Enqueue] and [EnqueuePost] hold their queue's monitor
    for the enqueue only: on return the monitors held are those held
    before, and nothing was invoked.  The two loops of Tick take the
    queue's monitor once around the whole loop: every delegate they invoke
    runs with that monitor held, and it is released when the loop is
    over. *)
Theorem drain_loops_hold_the_queue_lock :
  forall (w : World) (m : MethodInvoker),
    Locked (Enqueue m w) = Locked w
    /\ Locked (EnqueuePost m w) = Locked w
    /\ Executed (Enqueue m w) = Executed w
    /\ Executed (EnqueuePost m w) = Executed w
    /\ (exists ms rest,
           ms = _queue w ++ rest
           /\ Executed (TickBatch_body w)
              = Executed w ++ map (fun m => (m, Lock_queue :: Locked w)) ms)
    /\ Locked (TickBatch_body w) = Locked w
    /\ Executed (TimerBatch_body w)
       = Executed w ++ map (fun m => (m, Lock_postQueue :: Locked w)) (_postQueue w)
    /\ Locked (TimerBatch_body w) = Locked w.
Proof.
  intros w m. rewrite Enqueue_eq, EnqueuePost_eq.
  destruct (TickBatch_body_spec w)
    as (ms & rest & Hms & _ & _ & _ & He & HL & _).
  destruct (TimerBatch_body_spec w) as (Hh & _ & _ & _ & He').
  repeat split; try assumption.
  - exists ms, rest. split; assumption.
  - apply Hh.
Qed.

(** C9 (as stated) fails: the delegate enqueued by Remove is invoked by
    the batch of Tick while the monitor of the immediate queue is held. *)
Lemma delegate_runs_under_queue_lock :
  let w := play [OpNew 1 "svchost.exe" true; OpAdd 1; OpRemove 1; OpTick] startup in
  _queue w = [ShowRemoved 1]
  /\ Executed w = []
  /\ Executed (Pump w) = [(ShowRemoved 1, [Lock_queue])].
Proof. vm_compute. repeat split. Qed.

End HighlightingTheory.

(** * More about the main window: commands, destruction, menus *)

Module MainWndUiTheory.
Import MainWnd MainWndUi MainWndTheory.







(** ** Commands on the selected item *)



(** Without the handler's reference the same pumped messages destroy the
    item: this is the case the comment at lines 704-705 warns of. *)
Example pumped_removed_destroys_unreferenced_item :
  let st := run [Raise (PhProcessAddedEvent 7); Dispatch]
                (PhMainWndOnCreate ∅ example_memory 2) in
  Destroyed (Objects (run [Raise (PhProcessRemovedEvent 7); Dispatch] st)) = [7%nat].
Proof. vm_compute. reflexivity. Qed.


(** Destroyed after a dereference, exactly. *)
Lemma Destroyed_PhDereferenceObject o om :
  Destroyed (PhDereferenceObject o om)
  = Destroyed om ++ (if bool_decide (count_of om o = 1%nat) then [o] else []).
Proof.
  unfold PhDereferenceObject. destruct (count_of om o) as [|[|n]]; simpl;
    rewrite ?app_nil_r; reflexivity.
Qed.

Lemma destructions_snoc o x om l :
  Destroyed om = l ++ [x] ->
  destructions o om
  = (length (List.filter (fun y => bool_decide (y = o)) l)
     + (if bool_decide (x = o) then 1 else 0))%nat.
Proof.
  intros H. unfold destructions. rewrite H, filter_snoc, length_app.
  destruct (bool_decide (x = o)); reflexivity.
Qed.

Lemma destructions_reference o o' om :
  destructions o (PhReferenceObject o' om) = destructions o om.
Proof. reflexivity. Qed.

Lemma destructions_dereference_other o o' om :
  o' <> o ->
  destructions o (PhDereferenceObject o' om) = destructions o om.
Proof.
  intros Hne. unfold destructions. rewrite Destroyed_PhDereferenceObject.
  rewrite List.filter_app, length_app.
  destruct (bool_decide (count_of om o' = 1%nat)); simpl;
    [rewrite bool_decide_eq_false_2 by exact Hne|]; simpl; lia.
Qed.

Lemma destructions_dereference_same o om :
  destructions o (PhDereferenceObject o om)
  = (destructions o om + (if bool_decide (count_of om o = 1%nat) then 1 else 0))%nat.
Proof.
  unfold destructions. rewrite Destroyed_PhDereferenceObject.
  rewrite List.filter_app, length_app.
  destruct (bool_decide (count_of om o = 1%nat)); simpl;
    [rewrite bool_decide_eq_true_2 by reflexivity|]; simpl; lia.
Qed.

Lemma destructions_zero o om : o ∉ Destroyed om -> destructions o om = 0%nat.
Proof.
  intros Hnot. unfold destructions.
  destruct (List.filter (fun x => bool_decide (x = o)) (Destroyed om)) as [|x l] eqn:Hf;
    [reflexivity|].
  exfalso. apply Hnot.
  assert (In x (List.filter (fun x => bool_decide (x = o)) (Destroyed om))) as Hin
      by (rewrite Hf; left; reflexivity).
  apply List.filter_In in Hin as [Hin Hx].
  apply bool_decide_eq_true in Hx. subst x. apply list_elem_of_In. exact Hin.
Qed.

Lemma destructions_pos o om : o ∈ Destroyed om -> (1 <= destructions o om)%nat.
Proof.
  intros Hin. apply list_elem_of_In in Hin. unfold destructions.
  assert (In o (List.filter (fun x => bool_decide (x = o)) (Destroyed om))) as H.
  { apply List.filter_In. split; [exact Hin|]. apply bool_decide_eq_true_2. reflexivity. }
  destruct (List.filter _ _); [destruct H | simpl; lia].
Qed.

Lemma once_raise base o ph ph' e st :
  once_inv base o ph st ->
  next_phase o ph e = Some ph' ->
  once_inv base o ph' (invoke_callback e st).
Proof.
  intros (Hinv & Hle & Hbase) Hnext.
  split; [apply (inv_raise _ _ ph); assumption|].
  destruct (invoke_callback_effect e st) as (m & _ & _ & _ & Hom).
  assert (Destroyed (Objects (invoke_callback e st)) = Destroyed (Objects st)) as Hd.
  { rewrite Hom. destruct (event_about e) as [[o' []]|]; reflexivity. }
  unfold destructions. rewrite Hd. split; assumption.
Qed.

Lemma destructions_message_refs_other o m om :
  refers o m = false ->
  destructions o (message_refs m om) = destructions o om.
Proof.
  intros Hr. apply refers_false in Hr.
  destruct m as [p|p|p|w s|d|s|]; simpl in *; try reflexivity.
  - apply destructions_dereference_other. congruence.
  - rewrite destructions_dereference_other by congruence. reflexivity.
  - apply destructions_dereference_other. congruence.
Qed.

Lemma once_dispatch base o ph st :
  once_inv base o ph st -> once_inv base o ph (DispatchMessage st).
Proof.
  intros (Hinv & Hle & Hbase).
  split; [apply inv_dispatch; exact Hinv|].
  revert Hinv. unfold lifecycle_inv, pending, DispatchMessage.
  destruct (MessageQueue st) as [|m q] eqn:Hmq; [intros _; split; assumption|].
  rewrite Objects_PhMainWndProc.
  cbn [with_queue Objects MessageQueue List.filter].
  intros [Hbal Hph].
  destruct (refers o m) eqn:Hr.
  - assert ((o ∉ Destroyed (Objects st))
            /\ acquires o (Objects st) = S (releases o (Objects st))
            /\ (is_removed_message m = true -> ph = Retired)) as (Hnot & Hacq & Hret).
    { destruct ph.
      - destruct Hph as (Hnil & _). discriminate.
      - destruct Hph as (Hnr & Hacq & Hnd). repeat split; auto.
        intros Hk. inversion Hnr; congruence.
      - destruct Hph as [(pre & r & _ & _ & _ & Hacq & Hnd)|(Hnil & _)];
          [auto | discriminate]. }
    destruct (is_removed_message m) eqn:Hk.
    + apply refers_true in Hr.
      assert (message_refs m (Objects st) = PhDereferenceObject o (Objects st)) as ->.
      { destruct m; simpl in *; try discriminate; injection Hr as ->; reflexivity. }
      rewrite destructions_dereference_same, (destructions_zero _ _ Hnot).
      split; [destruct (bool_decide _); simpl; lia|].
      rewrite Destroyed_PhDereferenceObject, elem_of_app.
      intros [Hin|Hin]; [contradiction|].
      case_bool_decide as Hone; [lia | inversion Hin].
    + assert (1 <= count_of (Objects st) o)%nat as Hpos by lia.
      destruct (message_refs_keep o m (Objects st) Hr Hk Hpos) as (_ & _ & _ & Hd).
      unfold destructions. rewrite Hd. split; assumption.
  - rewrite (destructions_message_refs_other _ _ _ Hr).
    split; [exact Hle|].
    destruct (message_refs_other o m (Objects st) Hr) as (_ & _ & _ & Hd).
    intros Hin. apply Hbase, Hd, Hin.
Qed.

Lemma once_run base o sch : forall ph ph' st,
  once_inv base o ph st ->
  lifecycle o ph sch = Some ph' ->
  once_inv base o ph' (run sch st).
Proof.
  induction sch as [|s sch IH]; intros ph ph' st Hinv Hlc; simpl in *.
  - injection Hlc as <-. exact Hinv.
  - destruct s as [e| |].
    + destruct (next_phase o ph e) as [ph1|] eqn:Hn; [|discriminate].
      apply (IH ph1); [|exact Hlc]. apply (once_raise _ _ ph); assumption.
    + apply (IH ph); [|exact Hlc]. exact Hinv.
    + apply (IH ph); [|exact Hlc]. apply once_dispatch. exact Hinv.
Qed.

(** ** Destruction *)

(** X2: the window code destroys an object at most once.  For an entity
    whose events are raised in provider order, under every interleaving
    of raising and dispatching, the object appears at most once among the
    destroyed objects, and if it does then Removed has been raised and
    dispatched, no message about it is undispatched, its count is zero
    and no reference was held outside the window. *)
Theorem object_destroyed_at_most_once :
  forall (counts : gmap nat nat) (m : Memory) (runId : Z) (sch : list Step)
         (o : nat) (ph : Phase),
    lifecycle o Unseen sch = Some ph ->
    let st := run sch (PhMainWndOnCreate counts m runId) in
    (destructions o (Objects st) <= 1)%nat
    /\ (o ∈ Destroyed (Objects st) ->
        ph = Retired /\ pending o st = []
        /\ count_of (Objects st) o = 0%nat
        /\ default 0%nat (counts !! o) = 0%nat).
Proof.
  intros counts m runId sch o ph Hlc st.
  assert (once_inv (default 0%nat (counts !! o)) o Unseen
            (PhMainWndOnCreate counts m runId)) as Hinit.
  { split; [apply inv_create|]. split; [unfold destructions; simpl; lia|].
    simpl. intros H. inversion H. }
  destruct (once_run _ o sch Unseen ph _ Hinit Hlc) as ((Hbal & Hph) & Hle & Hbase).
  fold st in Hbal, Hph, Hle, Hbase.
  split; [exact Hle|]. intros Hin. specialize (Hbase Hin).
  destruct ph.
  - destruct Hph as (_ & _ & Hnot). contradiction.
  - destruct Hph as (_ & _ & Hnot). contradiction.
  - destruct Hph as [(pre & r & _ & _ & _ & _ & Hnot)|(Hnil & Hacq)];
      [contradiction|].
    repeat split; [exact Hnil | lia | exact Hbase].
Qed.

Lemma object_destroyed_at_most_once_witness :
  lifecycle 7 Unseen example_schedule = Some Retired
  /\ (destructions 7 (Objects (run example_schedule
                                 (PhMainWndOnCreate ∅ example_memory 1))) <= 1)%nat.
Proof.
  split; [reflexivity|].
  destruct (object_destroyed_at_most_once ∅ example_memory 1 example_schedule
              7%nat Retired eq_refl) as (H & _).
  exact H.
Defined.

(** In that run the object is destroyed, once. *)
Example example_schedule_destroys_once :
  destructions 7 (Objects (run example_schedule
                             (PhMainWndOnCreate ∅ example_memory 1))) = 1%nat.
Proof. vm_compute. reflexivity. Qed.

Lemma EnumWindows_no_window pid desktop h :
  Forall (fun w => is_process_window pid w = false) desktop ->
  EnumWindows PhpEnumProcessWindowsProc (ULONG_of pid) desktop h = h.
Proof.
  induction 1 as [|w rest Hw _ IH]; [reflexivity|].
  simpl. unfold PhpEnumProcessWindowsProc, is_process_window in *.
  assert (ULONG_of (ULONG_of pid) = ULONG_of pid) as Hidem
      by (unfold ULONG_of; apply Z.mod_mod; lia).
  rewrite Hidem.
  destruct (IsWindowVisible w); simpl in *; [|exact IH].
  rewrite Hw. exact IH.
Qed.

Lemma EnumWindows_first_window pid pre w post h :
  Forall (fun w => is_process_window pid w = false) pre ->
  is_process_window pid w = true ->
  EnumWindows PhpEnumProcessWindowsProc (ULONG_of pid) (pre ++ w :: post) h = hwnd w.
Proof.
  intros Hpre Hw. induction Hpre as [|x pre Hx _ IH].
  - simpl. unfold PhpEnumProcessWindowsProc, is_process_window in *.
    assert (ULONG_of (ULONG_of pid) = ULONG_of pid) as Hidem
        by (unfold ULONG_of; apply Z.mod_mod; lia).
    rewrite Hidem. apply andb_true_iff in Hw as [-> ->]. reflexivity.
  - simpl. unfold PhpEnumProcessWindowsProc, is_process_window in *.
    assert (ULONG_of (ULONG_of pid) = ULONG_of pid) as Hidem
        by (unfold ULONG_of; apply Z.mod_mod; lia).
    rewrite Hidem.
    destruct (IsWindowVisible x); simpl in *; [|exact IH].
    rewrite Hx. exact IH.
Qed.

Lemma first_process_window pid desktop :
  Forall (fun w => is_process_window pid w = false) desktop
  \/ exists pre w post,
       desktop = pre ++ w :: post
       /\ Forall (fun w => is_process_window pid w = false) pre
       /\ is_process_window pid w = true.
Proof.
  induction desktop as [|x l IH]; [left; constructor|].
  destruct (is_process_window pid x) eqn:Hx.
  - right. exists [], x, l. repeat split; [constructor | exact Hx].
  - destruct IH as [Hall|(pre & w & post & -> & Hpre & Hw)].
    + left. constructor; assumption.
    + right. exists (x :: pre), w, post. repeat split; [constructor; assumption | exact Hw].
Qed.

(** ** The process menu *)

(** X3: the enumeration started by the process menu leaves in
    SelectedProcessWindowHandle the first visible top-level window whose
    process id is the selected process' id as a ULONG, and NULL when no
    visible window belongs to the process; invisible windows and windows
    of other processes before it are passed over. *)
Theorem enum_windows_finds_first_visible_window :
  forall (ProcessId : Z) (desktop : list WINDOW),
    (Forall (fun w => is_process_window ProcessId w = false) desktop
     /\ find_process_window ProcessId desktop = 0)
    \/ (exists pre w post,
          desktop = pre ++ w :: post
          /\ Forall (fun w => is_process_window ProcessId w = false) pre
          /\ IsWindowVisible w = true
          /\ WindowProcessId w = ProcessId `mod` 2 ^ 32
          /\ find_process_window ProcessId desktop = hwnd w).
Proof.
  intros pid desktop. unfold find_process_window.
  destruct (first_process_window pid desktop)
    as [Hall|(pre & w & post & -> & Hpre & Hw)].
  - left. split; [exact Hall|]. apply EnumWindows_no_window, Hall.
  - right. exists pre, w, post. split; [reflexivity|]. split; [exact Hpre|].
    pose proof Hw as Hw'. unfold is_process_window in Hw'.
    apply andb_true_iff in Hw' as [Hv Hp]. apply bool_decide_eq_true in Hp.
    split; [exact Hv|]. split; [exact Hp|].
    apply EnumWindows_first_window; assumption.
Qed.

(** X4: the priority item the process menu checks and the priority a
    command sets agree.  The menu checks the item [id] for priority class
    [c] exactly when [id] is a priority command whose handler passes [c]
    to PhUiSetPriorityProcess, and likewise for the I/O priority items;
    for any other value, such as the 0 and -1 of a failed query, no item
    is checked. *)
Theorem priority_menu_matches_priority_commands :
  forall (sel : Selection) (id : CommandId) (c : Z),
    (priority_menu_item c = Some id
     <-> is_priority_command id = true /\ command_argument id sel = Some c)
    /\ (io_priority_menu_item c = Some id
        <-> is_io_priority_command id = true /\ command_argument id sel = Some c).
Proof.
  intros sel id c. split; split.
  - unfold priority_menu_item.
    repeat case_bool_decide; intros [= <-]; subst c; split; reflexivity.
  - intros [Hp Harg]. destruct id; try discriminate Hp;
      simpl in Harg; injection Harg as <-; reflexivity.
  - unfold io_priority_menu_item.
    repeat case_bool_decide; intros [= <-]; subst c; split; reflexivity.
  - intros [Hp Harg]. destruct id; try discriminate Hp;
      simpl in Harg; injection Harg as <-; reflexivity.
Qed.

End MainWndUiTheory.

(** * Theorems about tab pages, settings and the users menu *)

Module MainWndShellTheory.
Import MainWndShell.


(** ** Tab pages *)




(** ** Settings and shutdown *)













Lemma SetMenuItemInfo_loop data n : forall items,
  (n <= length items)%nat ->
  foldl (fun userMenu j => SetMenuItemInfo j data userMenu) items (seq 0 n)
  = map (set_dwItemData data) (take n items) ++ drop n items.
Proof.
  induction n as [|n IH]; intros items Hn.
  - simpl. rewrite drop_0. reflexivity.
  - rewrite seq_S, foldl_app. cbn [foldl Nat.add].
    rewrite IH by lia. clear IH.
    destruct (lookup_lt_is_Some_2 items n ltac:(lia)) as [it Hit].
    rewrite (take_S_r _ _ _ Hit), (drop_S _ _ _ Hit), map_app. cbn [map].
    unfold SetMenuItemInfo.
    rewrite alter_app_r_alt by (rewrite length_map, length_take; lia).
    rewrite length_map, length_take, Nat.min_l, Nat.sub_diag by lia.
    rewrite <- app_assoc. reflexivity.
Qed.

Lemma add_user_menu_eq IDR_USER menu s :
  add_user_menu IDR_USER menu s
  = if shown_session s then menu ++ [user_menu_of IDR_USER s] else menu.
Proof.
  unfold add_user_menu, shown_session.
  destruct (DomainNameNullOrEmpty s || UserNameNullOrEmpty s); [reflexivity|].
  cbv zeta. rewrite SetMenuItemInfo_loop by reflexivity.
  rewrite firstn_all, drop_all, app_nil_r. reflexivity.
Qed.

Lemma foldl_add_user_menu IDR_USER sessions : forall menu,
  foldl (add_user_menu IDR_USER) menu sessions
  = menu ++ map (user_menu_of IDR_USER) (List.filter shown_session sessions).
Proof.
  induction sessions as [|s sessions IH]; intros menu; simpl.
  - rewrite app_nil_r. reflexivity.
  - rewrite IH, add_user_menu_eq. destruct (shown_session s); [|reflexivity].
    simpl. rewrite <- app_assoc. reflexivity.
Qed.

Lemma GetMenuItemInfo_set_dwItemData data id : forall items,
  Some id ∈ map wID items ->
  exists it, GetMenuItemInfo (map (set_dwItemData data) items) id = Some it
             /\ dwItemData it = data.
Proof.
  induction items as [|x items IH]; intros Hin; [inversion Hin|].
  unfold GetMenuItemInfo. cbn [map List.find set_dwItemData wID].
  case_bool_decide as Hx.
  - eexists. split; [reflexivity|]. reflexivity.
  - apply IH. simpl in Hin. apply elem_of_cons in Hin as [Hin|Hin]; [congruence|exact Hin].
Qed.

(** ** The users menu *)

(** X7: a user command acts on the session of the submenu it was chosen
    from.  After the users menu is refreshed it has one submenu for each
    session with a domain and a user name, in the order of the
    enumeration; selecting a user command in a submenu and then running
    it calls the operation with that submenu's session id (as a ULONG).
    When the enumeration fails the menu is empty. *)
Theorem user_command_acts_on_menu_session :
  forall (IDR_USER : list MENUITEM) (sessions : list WTS_SESSION_INFO)
         (old : list USERMENU),
    let menu := PhpRefreshUsersMenu IDR_USER (Some sessions) old in
    map MenuSession menu = List.filter shown_session sessions
    /\ (forall (userMenu : USERMENU) (id : UserCommand) (selected : Z),
          userMenu ∈ menu ->
          Some id ∈ map wID IDR_USER ->
          PhMainWndOnUserCommand id
            (PhMainWndOnMenuSelect (Some id) (MenuItems userMenu) selected)
          = {| UserOperation := id;
               OnSession := SessionId (MenuSession userMenu) `mod` 2 ^ 32 |})
    /\ PhpRefreshUsersMenu IDR_USER None old = [].
Proof.
  intros IDR_USER sessions old menu.
  assert (menu = map (user_menu_of IDR_USER) (List.filter shown_session sessions)) as Hmenu.
  { subst menu. unfold PhpRefreshUsersMenu. apply foldl_add_user_menu. }
  split; [|split; [|reflexivity]].
  - rewrite Hmenu, map_map. cbn [user_menu_of MenuSession]. apply map_id.
  - intros userMenu id selected Hin Hid. rewrite Hmenu in Hin.
    apply list_elem_of_fmap in Hin as (s & -> & _).
    cbn [user_menu_of MenuSession MenuItems].
    unfold PhMainWndOnUserCommand, PhMainWndOnMenuSelect.
    destruct (GetMenuItemInfo_set_dwItemData (SessionId s) id IDR_USER Hid)
      as (it & -> & ->).
    reflexivity.
Qed.

End MainWndShellTheory.

(** * More about highlighting: what batches do to the items *)

Module HighlightingItemsTheory.
Import Highlighting HighlightingTheory.

Lemma Heap_update_item this f w :
  Heap (update_item this f w) = alter f this (Heap w).
Proof.
  unfold update_item. destruct (Heap w !! this) as [it|] eqn:Hit.
  - cbn [store set_Heap Heap]. apply map_eq. intros i.
    destruct (decide (i = this)) as [->|Hne].
    + rewrite lookup_insert_eq, lookup_alter_eq, Hit. reflexivity.
    + rewrite lookup_insert_ne, lookup_alter_ne by congruence. reflexivity.
  - apply map_eq. intros i.
    destruct (decide (i = this)) as [->|Hne].
    + rewrite lookup_alter_eq, Hit. reflexivity.
    + rewrite lookup_alter_ne by congruence. reflexivity.
Qed.

Lemma ListItems_update_item this f w :
  ListItems (update_item this f w) = ListItems w.
Proof. apply update_item_fields. Qed.

Lemma Invoke_items m w :
  Heap (Invoke m w) = heap_step (Heap w) m
  /\ ListItems (Invoke m w) = items_step (ListItems w) m.
Proof.
  unfold Invoke.
  destruct m as [this|this|this|id enq post]; cbn [body heap_step items_step].
  - rewrite Heap_update_item, ListItems_update_item. split; reflexivity.
  - rewrite EnqueuePost_eq. cbn [set_postQueuePending Heap ListItems].
    rewrite Heap_update_item, ListItems_update_item. split; reflexivity.
  - split; reflexivity.
  - rewrite foldl_EnqueuePost, foldl_Enqueue. split; reflexivity.
Qed.




Lemma drain_postQueue_effect fuel : forall w,
  (length (_postQueue w) <= fuel)%nat ->
  Heap (drain_postQueue fuel w) = foldl heap_step (Heap w) (_postQueue w)
  /\ ListItems (drain_postQueue fuel w) = foldl items_step (ListItems w) (_postQueue w).
Proof.
  induction fuel as [|fuel IH]; intros w Hw.
  - destruct (_postQueue w) as [|m q] eqn:Hq; [|simpl in Hw; lia].
    split; reflexivity.
  - cbn [drain_postQueue]. destruct (_postQueue w) as [|m q] eqn:Hq.
    + split; reflexivity.
    + destruct (Invoke_fields m (set_postQueue q w)) as (_ & _ & Hp1 & _ & _).
      destruct (Invoke_items m (set_postQueue q w)) as (Hheap & Hitems).
      cbn [set_postQueue _postQueue Heap ListItems] in Hp1, Hheap, Hitems.
      destruct (IH (Invoke m (set_postQueue q w))) as (H1 & H2).
      { rewrite Hp1. simpl in Hw. lia. }
      rewrite H1, H2, Hp1, Hheap, Hitems. split; reflexivity.
Qed.

Lemma TimerBatch_body_effect w :
  Heap (TimerBatch_body w) = foldl heap_step (Heap w) (_postQueue w)
  /\ ListItems (TimerBatch_body w) = foldl items_step (ListItems w) (_postQueue w).
Proof.
  unfold TimerBatch_body.
  destruct (TimerBatch_requeue_spec (TimerBatch_execute w))
    as (_ & _ & _ & _ & _ & -> & ->).
  unfold TimerBatch_execute, run_postQueue.
  set (w2 := lock Lock_postQueue (BeginUpdate w)).
  destruct (drain_postQueue_effect (length (_postQueue w2)) w2 (le_n _)) as (H1 & H2).
  unfold EndUpdate, unlock. cbn [set_UpdateDepth set_Locked Heap ListItems].
  rewrite H1, H2. split; reflexivity.
Qed.


(** Items that no delegate of the list repaints or removes. *)
Lemma heap_step_other this m h :
  paints this m = false -> heap_step h m !! this = h !! this.
Proof.
  destruct m as [that|that|that|id enq post]; cbn [paints heap_step];
    try reflexivity; intros H; apply bool_decide_eq_false in H;
    apply lookup_alter_ne; exact H.
Qed.

Lemma foldl_heap_step_other this ms : forall h,
  Forall (fun m => paints this m = false) ms ->
  foldl heap_step h ms !! this = h !! this.
Proof.
  induction ms as [|m ms IH]; intros h Hall; [reflexivity|].
  inversion Hall as [|? ? Hm Hms]; subst. simpl.
  rewrite IH by exact Hms. apply heap_step_other, Hm.
Qed.









(** ** The immediate batch *)


(** A delegate that enqueues two more, one of which enqueues a third:
    all four run in the batch, in the order they were enqueued. *)
Example nested_enqueues_run_in_one_batch :
  let inner := Callback 3 [ShowRemoved 9] [] in
  let outer := Callback 1 [Callback 2 [] []; inner] [] in
  map fst (Executed (TickBatch_body (Enqueue outer startup)))
  = [outer; Callback 2 [] []; inner; ShowRemoved 9].
Proof. vm_compute. reflexivity. Qed.


(** ** Removal and the NormalColor property *)




Lemma ctor_highlighted_closed this text w :
  _stateHighlighting w = true ->
  Heap (HighlightedListViewItem_ctor this text true w)
  = <[this := {| ItemText := text; BackColor := Colors New;
                 ForeColor := GetForeColor (Colors New);
                 _normalColor := SystemColors_Window; _state := New |}]> (Heap w)
  /\ _postQueue (HighlightedListViewItem_ctor this text true w) = _postQueue w
  /\ _postQueuePending (HighlightedListViewItem_ctor this text true w)
     = _postQueuePending w ++ [RestoreNormal this].
Proof.
  intros Hon. unfold HighlightedListViewItem_ctor. rewrite Hon. cbn [andb].
  rewrite EnqueuePost_eq. repeat split.
Qed.

Lemma set_NormalColor_fields this c w :
  _postQueue (set_NormalColor this c w) = _postQueue w
  /\ _postQueuePending (set_NormalColor this c w) = _postQueuePending w
  /\ _queue (set_NormalColor this c w) = _queue w
  /\ ListItems (set_NormalColor this c w) = ListItems w.
Proof.
  unfold set_NormalColor.
  match goal with |- context [update_item this ?f w] =>
    destruct (update_item_fields this f w) as (_ & H1 & H2 & H3 & _ & H5) end.
  repeat split; assumption.
Qed.

(** X10: a normal colour assigned while an item is highlighted shows
    when the highlight decays.  With highlighting on, setting NormalColor
    on a freshly constructed item leaves it in the New colour and state,
    the first delayed batch leaves it so, and the second delayed batch
    makes it Normal in the assigned colour (provided no other delegate
    waiting in the delayed queues repaints the item). *)
Theorem normal_color_set_while_highlighted_shows_after_decay :
  forall (w : World) (this : nat) (text : string) (c : Z),
    _stateHighlighting w = true ->
    Forall (fun m => paints this m = false)
      (_postQueue w ++ _postQueuePending w ++ flat_map requests (_postQueue w)) ->
    let w1 := HighlightedListViewItem_ctor this text true w in
    let w2 := set_NormalColor this c w1 in
    let w3 := TimerBatch_body w2 in
    let w4 := TimerBatch_body w3 in
    Heap w2 !! this
    = Some {| ItemText := text; BackColor := Colors New;
              ForeColor := GetForeColor (Colors New);
              _normalColor := c; _state := New |}
    /\ Heap w3 !! this = Heap w2 !! this
    /\ Heap w4 !! this
       = Some {| ItemText := text; BackColor := c; ForeColor := GetForeColor c;
                 _normalColor := c; _state := Normal |}.
Proof.
  intros w this text c Hon Hquiet. cbv zeta.
  apply Forall_app in Hquiet as [Hq1 Hquiet].
  apply Forall_app in Hquiet as [Hq2 Hq3].
  destruct (ctor_highlighted_closed this text w Hon) as (Hh1 & Hpq1 & Hp1).
  remember (HighlightedListViewItem_ctor this text true w) as w1 eqn:E1. clear E1.
  destruct (set_NormalColor_fields this c w1) as (Hpq2 & Hp2 & _).
  assert (Heap (set_NormalColor this c w1) !! this
          = Some {| ItemText := text; BackColor := Colors New;
                    ForeColor := GetForeColor (Colors New);
                    _normalColor := c; _state := New |}) as Hit2.
  { unfold set_NormalColor. rewrite Heap_update_item, lookup_alter_eq, Hh1.
    rewrite lookup_insert_eq. reflexivity. }
  rewrite Hpq1 in Hpq2. rewrite Hp1 in Hp2.
  remember (set_NormalColor this c w1) as w2 eqn:E2. clear E2.
  destruct (TimerBatch_body_effect w2) as (Hh3 & _).
  destruct (TimerBatch_body_spec w2) as (_ & Hpq3 & _).
  destruct (TimerBatch_body_effect (TimerBatch_body w2)) as (Hh4 & _).
  remember (TimerBatch_body w2) as w3 eqn:E3. clear E3.
  remember (TimerBatch_body w3) as w4 eqn:E4. clear E4.
  assert (Heap w3 !! this = Heap w2 !! this) as Hit3.
  { rewrite Hh3, Hpq2. apply foldl_heap_step_other, Hq1. }
  split; [exact Hit2|]. split; [exact Hit3|].
  rewrite Hh4, Hpq3, Hp2, Hpq2, !foldl_app.
  rewrite foldl_heap_step_other by exact Hq3.
  cbn [foldl heap_step]. rewrite lookup_alter_eq.
  rewrite foldl_heap_step_other by exact Hq2.
  rewrite Hit3, Hit2. reflexivity.
Qed.

Lemma normal_color_set_while_highlighted_shows_after_decay_witness :
  Heap (TimerBatch_body (TimerBatch_body
          (set_NormalColor 1 0xffffe0
             (HighlightedListViewItem_ctor 1 "svchost.exe" true startup)))) !! 1%nat
  = Some {| ItemText := "svchost.exe"; BackColor := 0xffffe0;
            ForeColor := GetForeColor 0xffffe0;
            _normalColor := 0xffffe0; _state := Normal |}.
Proof.
  assert (_stateHighlighting startup = true) as Hon by reflexivity.
  assert (Forall (fun m => paints 1 m = false)
            (_postQueue startup ++ _postQueuePending startup
             ++ flat_map requests (_postQueue startup))) as Hquiet
      by (vm_compute; constructor).
  destruct (normal_color_set_while_highlighted_shows_after_decay
              startup 1%nat "svchost.exe" 0xffffe0 Hon Hquiet) as (_ & _ & H).
  exact H.
Defined.

End HighlightingItemsTheory.
